(** * daily-news-bot: the search / summarise / publish pipeline of [main.py]

    A shallow embedding of [src/main.py].  The Python functions are written
    in a small monad that threads the trace of observable effects (log lines,
    provider calls, printed lines) and carries Python's three ways of leaving
    a statement: falling through, [return], and a raised exception, plus
    [sys.exit].  External services (the search provider, the generation
    client, the messaging provider, the clock and the environment) are the
    variables of a section. *)

From Stdlib Require Import ZArith String Ascii List Lia DecimalString.
From stdpp Require Import base strings gmap list.

Local Open Scope string_scope.
Local Open Scope list_scope.
Local Open Scope Z_scope.

(** ** Strings *)

Module Str.

(** The line feed of Python's ["\n"]. *)
Definition nl : string := String "010"%char "".

(** [s * n] on a Python [str]. *)
Fixpoint repeat (s : string) (n : nat) : string :=
  match n with
  | O => ""
  | S n' => s +:+ repeat s n'
  end.

(** [sep.join(parts)]. *)
Fixpoint join (sep : string) (parts : list string) : string :=
  match parts with
  | [] => ""
  | [p] => p
  | p :: ps => p +:+ sep +:+ join sep ps
  end.

(** [needle in hay] on two Python [str]: substring test.  Strings are
    UTF-8 byte sequences here; UTF-8 is self-synchronising, so the byte
    test and the code-point test agree on well-formed text. *)
Fixpoint contains (needle hay : string) : bool :=
  String.prefix needle hay
  || match hay with
     | "" => false
     | String _ hay' => contains needle hay'
     end.

(** Truth value of a [str]: non-empty. *)
Definition truthy (s : string) : bool :=
  match s with "" => false | _ => true end.

(** [str(n)] for a non-negative [int]. *)
Definition of_nat (n : nat) : string := NilEmpty.string_of_uint (Nat.to_uint n).

(** Left-pad a decimal to [w] digits with zeros, as [%02d] does. *)
Definition zero_pad (w : nat) (n : nat) : string :=
  let s := of_nat n in
  repeat "0" (w - String.length s) +:+ s.

(** The Prop-level meaning of the substring test. *)
Definition occurs_in (needle hay : string) : Prop :=
  exists pre post, hay = pre +:+ needle +:+ post.

End Str.

(** ** Effects *)

(** A Python exception, identified with its [str()] text. *)
Definition exn := string.

Inductive level := INFO | WARNING | ERROR.

(** Context managers entered with [with]. *)
Inductive resource := DDGS_session | LINE_ApiClient.

Record GenerateContentConfig := { temperature : Z * Z (* numerator, denominator *) }.
(** [response.text] is the answer's text, or [None] when the answer holds
    none. *)
Record GenerateContentResponse := { text : option string }.
Record TextMessage := { tm_text : string }.
Record PushMessageRequest := { to : option string; messages : list TextMessage }.
Record Configuration := { access_token : option string }.
Record ApiClient := { configuration : Configuration }.
Record MessagingApi := { api_client : ApiClient }.

(** What a run does to the outside world, in order. *)
Inductive event :=
| Call (fn : string)
| Log (lvl : level) (msg : string)
| Enter (r : resource)
| Exit (r : resource)
| DdgsNews (query region safesearch timelimit : string)
| GenaiClient (api_key : option string)
| GenerateContent (model contents : string) (config : GenerateContentConfig)
| Print (line : string)
| PushMessage (cfg : Configuration) (req : PushMessageRequest).

Abbreviation trace := (list event).

(** How a statement ends: it falls through with a value, executes [return],
    raises an [Exception], or raises [SystemExit] through [sys.exit]. *)
Inductive outcome (R A : Type) :=
| Normal (a : A)
| Returned (r : R)
| Raised (e : exn)
| Exited (code : Z).
Arguments Normal {R A} a.
Arguments Returned {R A} r.
Arguments Raised {R A} e.
Arguments Exited {R A} code.

(** Statements of a function whose return type is [R]. *)
Definition M (R A : Type) : Type := trace -> outcome R A * trace.

Module Stmt.

Definition ret {R A} (a : A) : M R A := fun tr => (Normal a, tr).

Definition bind {R A B} (m : M R A) (k : A -> M R B) : M R B :=
  fun tr =>
    match m tr with
    | (Normal a, tr') => k a tr'
    | (Returned r, tr') => (Returned r, tr')
    | (Raised e, tr') => (Raised e, tr')
    | (Exited c, tr') => (Exited c, tr')
    end.

(** [return r] *)
Definition return_ {R A} (r : R) : M R A := fun tr => (Returned r, tr).

(** [raise e], as done by a provider *)
Definition raise {R A} (e : exn) : M R A := fun tr => (Raised e, tr).

(** [sys.exit(code)] *)
Definition sys_exit {R A} (code : Z) : M R A := fun tr => (Exited code, tr).

Definition emit {R} (ev : event) : M R unit := fun tr => (Normal tt, tr ++ [ev]).

(** [try: body / except Exception as e: handler e].  [SystemExit] is not
    an [Exception] and passes through. *)
Definition try_except {R A} (body : M R A) (handler : exn -> M R A) : M R A :=
  fun tr =>
    match body tr with
    | (Raised e, tr') => handler e tr'
    | other => other
    end.

(** [with ctor as x: body].  The constructor may raise; once entered, the
    resource is released however the body ends. *)
Definition with_ {R A X} (r : resource) (ctor : exn + X) (body : X -> M R A) : M R A :=
  match ctor with
  | inl e => raise e
  | inr x =>
      fun tr =>
        let '(o, tr') := body x (tr ++ [Enter r]) in
        (o, tr' ++ [Exit r])
  end.

(** Calling the function [fn] whose body is [body]: the call is recorded,
    and a [return] inside the body is the value of the call. *)
Definition call {R R'} (fn : string) (body : M R R) : M R' R :=
  fun tr =>
    match body (tr ++ [Call fn]) with
    | (Normal r, tr') => (Normal r, tr')
    | (Returned r, tr') => (Normal r, tr')
    | (Raised e, tr') => (Raised e, tr')
    | (Exited c, tr') => (Exited c, tr')
    end.

(** How a loop body ends: it reaches its end or [continue]s ([Next]), or
    it [break]s; either way with the current values of the loop's
    variables. *)
Inductive ctl (S : Type) := Next (s : S) | Brk (s : S).
Arguments Next {S} s.
Arguments Brk {S} s.

Definition next_ {R S} (s : S) : M R (ctl S) := ret (Next s).
Definition continue_ {R S} (s : S) : M R (ctl S) := ret (Next s).
Definition break_ {R S} (s : S) : M R (ctl S) := ret (Brk s).

(** [for x in xs: body] over a list, [s] being the variables the body
    assigns. *)
Fixpoint for_each {R X S} (xs : list X) (s : S) (body : X -> S -> M R (ctl S)) : M R S :=
  match xs with
  | [] => ret s
  | x :: xs' =>
      bind (body x s) (fun c =>
        match c with
        | Next s' => for_each xs' s' body
        | Brk s' => ret s'
        end)
  end.

End Stmt.

Declare Scope stmt_scope.
Delimit Scope stmt_scope with stmt.
Notation "x <- c ;; k" := (Stmt.bind c (fun x => k))
  (at level 100, c at next level, right associativity) : stmt_scope.
Notation "c ;; k" := (Stmt.bind c (fun _ : unit => k))
  (at level 100, right associativity) : stmt_scope.
Local Open Scope stmt_scope.

Import Stmt.

Definition logger_info {R} (msg : string) : M R unit := emit (Log INFO msg).
Definition logger_warning {R} (msg : string) : M R unit := emit (Log WARNING msg).
Definition logger_error {R} (msg : string) : M R unit := emit (Log ERROR msg).
Definition print {R} (line : string) : M R unit := emit (Print line).

(** Exit status of the interpreter after running the module. *)
Definition exit_status {R A} (o : outcome R A) : Z :=
  match o with
  | Normal _ | Returned _ => 0
  | Raised _ => 1
  | Exited c => c
  end.

(** ** The search provider *)

(** One search hit: the [dict] the provider yields.  [r.get(k, '')] is
    [dict_get r k ""]. *)
Abbreviation SearchResult := (gmap string string).

Definition dict_get (r : SearchResult) (key default : string) : string :=
  match r !! key with
  | Some v => v
  | None => default
  end.

(** The lazy sequence [ddgs.news(...)] evaluates to: each [next()] yields a
    hit, ends the iteration, or raises. *)
Inductive news_gen :=
| GenStop
| GenYield (r : SearchResult) (rest : news_gen)
| GenRaise (e : exn).

(** A [DDGS] object: its [news(query, region, safesearch, timelimit)]
    method. *)
Record DDGS := {
  news : string -> string -> string -> string -> news_gen
}.

(** Hits the sequence holds, whether or not a consumer gets that far. *)
Inductive yields : news_gen -> SearchResult -> Prop :=
| yields_here r rest : yields (GenYield r rest) r
| yields_later r r' rest : yields rest r -> yields (GenYield r' rest) r.

(** The exception the sequence ends in, if it is consumed that far. *)
Inductive gen_raises : news_gen -> exn -> Prop :=
| raises_here e : gen_raises (GenRaise e) e
| raises_later r rest e : gen_raises rest e -> gen_raises (GenYield r rest) e.

(** [for r in gen: body], the loop's variables in [s]. *)
Fixpoint for_gen {R S} (gen : news_gen) (s : S)
    (body : SearchResult -> S -> M R (ctl S)) : M R S :=
  match gen with
  | GenStop => ret s
  | GenRaise e => raise e
  | GenYield r rest =>
      c <- body r s ;;
      match c with
      | Next s' => for_gen rest s' body
      | Brk s' => ret s'
      end
  end.

(** ** Dates *)

Record date := { year : nat; month : nat; day : nat }.

(** [d.strftime("%Y/%m/%d")] *)
Definition strftime_Ymd (d : date) : string :=
  Str.zero_pad 4 (year d) +:+ "/" +:+ Str.zero_pad 2 (month d) +:+ "/" +:+ Str.zero_pad 2 (day d).

(** ** The generation client and the messaging provider *)

(** [client.models.generate_content(model=..., contents=..., config=...)]:
    the response, or the exception the call raises. *)
Abbreviation genai_client :=
  (string -> string -> GenerateContentConfig -> exn + GenerateContentResponse).

(** The messaging SDK: what entering [ApiClient(configuration)] and what
    [push_message(request)] raise, if anything.  [Configuration],
    [MessagingApi], [TextMessage] and [PushMessageRequest] only build
    values. *)
Record LineSdk := {
  ApiClient_raises : Configuration -> option exn;
  push_message_raises : Configuration -> PushMessageRequest -> option exn
}.

(** ** The pipeline *)

(** Truth value of a list: non-empty. *)
Definition list_truthy {A} (l : list A) : bool :=
  match l with [] => false | _ => true end.

(** Truth value of an optional [str]: present and non-empty. *)
Definition opt_truthy (o : option string) : bool :=
  match o with Some s => Str.truthy s | None => false end.

(** Python's [any(...)] over a list. *)
Definition any {A} (p : A -> bool) (l : list A) : bool := existsb p l.

(** Python's [all(...)] over a list. *)
Definition all {A} (p : A -> bool) (l : list A) : bool := forallb p l.

Definition block_list : list string :=
  ["Kardashian"; "Taylor Swift"; "Netflix"; "Review"; "Box Office"].

Definition candidate_models : list string :=
  ["gemini-1.5-pro-002"; "gemini-flash-latest"].

Definition keywords : list string :=
  [ "Major International Geopolitics -celebrity -gossip -sport -movie";
    "Global Economic Impact -stock -crypto";
    "Scientific Research Breakthroughs AI Space -movie -fiction" ].

(** The formatted block appended for an accepted hit. *)
Definition news_item (query title body url : string) : string :=
  "類別: " +:+ query +:+ Str.nl +:+ "標題: " +:+ title +:+ Str.nl +:+
  "摘要: " +:+ body +:+ Str.nl +:+ "連結: " +:+ url.

Section Pipeline.

(** [DDGS()]: the session object, or the exception its construction
    raises. *)
Variable DDGS_new : exn + DDGS.

(** The body of the inner [for r in news_gen] loop; the loop assigns
    [results] and [count]. *)
Definition search_hit {R} (max_results_per_keyword : Z) (query : string)
    (r : SearchResult) (s : list string * Z) : M R (ctl (list string * Z)) :=
  let '(results, count) := s in
  if count >=? max_results_per_keyword then break_ (results, count) else
  let title := dict_get r "title" "" in
  let body := dict_get r "body" "" in
  let url := dict_get r "url" "" in
  if any (fun bad_word => Str.contains bad_word title) block_list then
    continue_ (results, count)
  else
  if Str.truthy title && Str.truthy url then
    next_ (results ++ [news_item query title body url], count + 1)
  else
    next_ (results, count).

(** The body of the outer [for query in keywords] loop. *)
Definition search_query {R} (ddgs : DDGS) (max_results_per_keyword : Z)
    (query : string) (results : list string) : M R (ctl (list string)) :=
  logger_info ("   正在搜尋分類: " +:+ query +:+ " ...") ;;
  emit (DdgsNews query "wt-wt" "Off" "d") ;;
  let news_gen := news ddgs query "wt-wt" "Off" "d" in
  let count := 0 in
  s <- for_gen news_gen (results, count) (search_hit max_results_per_keyword query) ;;
  next_ (fst s).

(** The [try] block of [search_news]; its value is [results] as the
    block leaves it. *)
Definition search_news_try {R} (max_results_per_keyword : Z)
    (results : list string) : M R (list string) :=
  with_ DDGS_session DDGS_new
    (fun ddgs => for_each keywords results (search_query ddgs max_results_per_keyword)).

Definition search_news_body (target_date : date) (max_results_per_keyword : Z)
    : M (list string) (list string) :=
  let date_str := strftime_Ymd target_date in
  logger_info ("🔍 開始搜尋 " +:+ date_str +:+ " 的嚴肅國際新聞...") ;;
  let results := [] in
  results <- try_except
    (search_news_try max_results_per_keyword results)
    (fun e =>
       logger_error ("⚠️ 搜尋時發生錯誤: " +:+ e) ;;
       return_ []) ;;
  logger_info ("✅ 搜尋完成，共保留 " +:+ Str.of_nat (length results) +:+ " 則高價值新聞。") ;;
  return_ results.

Definition search_news {R} (target_date : date) (max_results_per_keyword : Z)
    : M R (list string) :=
  call "search_news" (search_news_body target_date max_results_per_keyword).



(** *** Summarizer *)

(** The module-level [client]. *)
Variable client : genai_client.

Definition generate_content {R} (model contents : string)
    (config : GenerateContentConfig) : M R GenerateContentResponse :=
  emit (GenerateContent model contents config) ;;
  match client model contents config with
  | inl e => raise e
  | inr response => ret response
  end.

Definition build_prompt (date_str : string) (news_list : list string) : string :=
  "今天是 " +:+ date_str +:+ "。" +:+ Str.nl +:+
  "你現在是一位「專注於硬派國際局勢與前沿科學研究」的資深分析師。" +:+ Str.nl +:+
  "請根據以下搜集到的資料，整理出一份「高含金量」的日報。" +:+ Str.nl +:+ Str.nl +:+
  "⛔ 嚴格過濾原則：" +:+ Str.nl +:+
  "1. 絕對不要包含娛樂、明星八卦、體育賽事、或是純粹的犯罪社會新聞。" +:+ Str.nl +:+
  "2. 如果資料中都是垃圾新聞，請直接回答「今日無重大地緣政治或科學新聞」。" +:+ Str.nl +:+ Str.nl +:+
  "✅ 撰寫要求：" +:+ Str.nl +:+
  "1. 請挑選 5 則最具影響力的「地緣政治變動」或「重大科學發現」。" +:+ Str.nl +:+
  "2. 語氣要專業、客觀、精煉，像是在寫給 CEO 或研究員看的簡報。" +:+ Str.nl +:+
  "3. 格式：【領域標籤】標題 (換行) 深度摘要 (換行) 🔗 連結。" +:+ Str.nl +:+
  "4. 結尾請給一句關於「洞察世界」的專業短語。" +:+ Str.nl +:+ Str.nl +:+
  "原始新聞資料：" +:+ Str.nl +:+
  Str.join (Str.nl +:+ "---" +:+ Str.nl) news_list.

(** The body of [for model_name in candidate_models]. *)
Definition try_model (prompt : string) (model_name : string) (_ : unit)
    : M (option string) (ctl unit) :=
  try_except
    (logger_info ("🧪 嘗試使用模型: " +:+ model_name +:+ " 進行撰寫...") ;;
     response <- generate_content model_name prompt {| temperature := (3, 10) |} ;;
     logger_info ("✨ 成功使用 " +:+ model_name +:+ " 完成報告！") ;;
     return_ (text response))
    (fun e =>
       logger_warning ("⚠️ 模型 " +:+ model_name +:+ " 執行失敗 (可能是額度不足或不支援): " +:+ e) ;;
       logger_info "🔄 正在切換至下一個備援模型..." ;;
       continue_ tt).

(** [generate_summary], every statement of the source, the [try] block
    after the unconditional [return None] included. *)
Definition generate_summary_body (news_list : list string) (target_date : date)
    : M (option string) (option string) :=
  (if negb (list_truthy news_list) then return_ None else ret tt) ;;
  let date_str := strftime_Ymd target_date in
  logger_info "🧠 Gemini 正在構思新聞報告..." ;;
  let prompt := build_prompt date_str news_list in
  for_each candidate_models tt (try_model prompt) ;;
  logger_error "❌ 所有模型皆嘗試失敗，無法生成報告。" ;;
  return_ None ;;
  try_except
    (response <- generate_content "gemini-flash-latest" prompt {| temperature := (3, 10) |} ;;
     return_ (text response))
    (fun e =>
       logger_error ("❌ Gemini 生成失敗: " +:+ e) ;;
       return_ None).

Definition generate_summary {R} (news_list : list string) (target_date : date)
    : M R (option string) :=
  call "generate_summary" (generate_summary_body news_list target_date).

(** The same function with the trailing block removed: the body ends at
    the [return None] that follows the loop. *)
Definition generate_summary_without_tail_body (news_list : list string)
    (target_date : date) : M (option string) (option string) :=
  (if negb (list_truthy news_list) then return_ None else ret tt) ;;
  let date_str := strftime_Ymd target_date in
  logger_info "🧠 Gemini 正在構思新聞報告..." ;;
  let prompt := build_prompt date_str news_list in
  for_each candidate_models tt (try_model prompt) ;;
  logger_error "❌ 所有模型皆嘗試失敗，無法生成報告。" ;;
  return_ None.

Definition generate_summary_without_tail {R} (news_list : list string)
    (target_date : date) : M R (option string) :=
  call "generate_summary" (generate_summary_without_tail_body news_list target_date).

(** *** Publisher *)

Variable line_sdk : LineSdk.

(** The module-level secrets, as [os.getenv] gave them. *)
Variable LINE_CHANNEL_ACCESS_TOKEN : option string.
Variable LINE_USER_ID : option string.

(** [ApiClient(configuration)] with its [__enter__]. *)
Definition ApiClient_new (configuration : Configuration) : exn + ApiClient :=
  match ApiClient_raises line_sdk configuration with
  | Some e => inl e
  | None => inr {| configuration := configuration |}
  end.

(** [line_bot_api.push_message(request)] *)
Definition push_message {R} (line_bot_api : MessagingApi)
    (request : PushMessageRequest) : M R unit :=
  let cfg := configuration (api_client line_bot_api) in
  emit (PushMessage cfg request) ;;
  match push_message_raises line_sdk cfg request with
  | Some e => raise e
  | None => ret tt
  end.

Definition send_line_push_body (message : string) : M unit unit :=
  logger_info "🚀 正在發送 LINE 訊息..." ;;
  let configuration := {| access_token := LINE_CHANNEL_ACCESS_TOKEN |} in
  try_except
    (with_ LINE_ApiClient (ApiClient_new configuration) (fun api_client =>
       let line_bot_api := {| api_client := api_client |} in
       let push_message_request :=
         {| to := LINE_USER_ID; messages := [ {| tm_text := message |} ] |} in
       push_message line_bot_api push_message_request ;;
       logger_info "✅ LINE 訊息發送成功！"))
    (fun e => logger_error ("❌ LINE 發送失敗: " +:+ e)).

Definition send_line_push {R} (message : string) : M R unit :=
  call "send_line_push" (send_line_push_body message).

(** *** Orchestrator *)

(** [datetime.date.today()], read from the clock. *)
Variable today_clock : date.

Definition get_target_date {R} : M R date :=
  call "get_target_date" (return_ today_clock).

(** [search_news(today)] uses the default of [max_results_per_keyword]. *)
Definition max_results_per_keyword_default : Z := 3.

Definition main_body : M unit unit :=
  today <- get_target_date ;;
  news <- search_news today max_results_per_keyword_default ;;
  (if negb (list_truthy news) then
     logger_warning "📭 今天沒有足夠的新聞，跳過。" ;;
     return_ tt
   else ret tt) ;;
  summary <- generate_summary news today ;;
  if opt_truthy summary then
    let summary := default "" summary in
    print (Str.nl +:+ Str.repeat "=" 30) ;;
    print summary ;;
    print (Str.repeat "=" 30 +:+ Str.nl) ;;
    send_line_push summary
  else ret tt.

Definition main {R} : M R unit := call "main" main_body.

End Pipeline.

(** ** Module start-up *)

(** [load_dotenv()]: variables of the [.env] file are added to the process
    environment, those already set keep their value. *)
Definition load_dotenv (dotenv environ : gmap string string) : gmap string string :=
  environ ∪ dotenv.

Section Startup.

Variable DDGS_new : exn + DDGS.
(** [genai.Client(api_key=...)]: the client, or the exception raised. *)
Variable genai_Client : option string -> exn + genai_client.
Variable line_sdk : LineSdk.
Variable today_clock : date.

(** The statements of the module, run as a script. *)
Definition module_body (dotenv environ : gmap string string) : M unit unit :=
  let environ := load_dotenv dotenv environ in
  let GEMINI_API_KEY := environ !! "GEMINI_API_KEY" in
  let LINE_CHANNEL_ACCESS_TOKEN := environ !! "LINE_CHANNEL_ACCESS_TOKEN" in
  let LINE_USER_ID := environ !! "LINE_USER_ID" in
  (if negb (all opt_truthy [GEMINI_API_KEY; LINE_CHANNEL_ACCESS_TOKEN; LINE_USER_ID]) then
     logger_error "❌ 環境變數缺失！請檢查 .env 檔案。" ;;
     sys_exit 1
   else ret tt) ;;
  emit (GenaiClient GEMINI_API_KEY) ;;
  client <- match genai_Client GEMINI_API_KEY with
            | inl e => raise e
            | inr c => ret c
            end ;;
  main DDGS_new client line_sdk LINE_CHANNEL_ACCESS_TOKEN LINE_USER_ID today_clock.

(** Running [python main.py]: the exit status and what happened. *)
Definition run_script (dotenv environ : gmap string string) : Z * trace :=
  let '(o, tr) := module_body dotenv environ [] in
  (exit_status o, tr).

End Startup.

(** * Vocabulary of the properties *)

(** ** Traces *)

(** [extends P tr tr']: [tr'] is [tr] followed by events that satisfy [P]. *)
Definition extends (P : event -> Prop) (tr tr' : trace) : Prop :=
  exists evs, tr' = tr ++ evs /\ Forall P evs.

(** ** Searcher *)

(** The block a hit is formatted to under a query. *)
Definition item_of (query : string) (r : SearchResult) : string :=
  news_item query (dict_get r "title" "") (dict_get r "body" "") (dict_get r "url" "").

(** The title holds a blocklisted substring. *)
Definition title_blocked (r : SearchResult) : Prop :=
  exists bad_word, In bad_word block_list /\ Str.occurs_in bad_word (dict_get r "title" "").

(** A hit the filter lets through. *)
Definition acceptable (r : SearchResult) : Prop :=
  ~ title_blocked r /\ dict_get r "title" "" <> "" /\ dict_get r "url" "" <> "".

(** Events [search_news] can produce. *)
Definition search_event (ev : event) : Prop :=
  match ev with
  | Call fn => fn = "search_news"
  | Log _ _ | Enter DDGS_session | Exit DDGS_session | DdgsNews _ _ _ _ => True
  | _ => False
  end.

(** The hits kept for one query: at most the cap, all yielded by that
    query's sequence, all acceptable. *)
Definition group_ok (ddgs : DDGS) (cap : Z) (grp : string * list SearchResult) : Prop :=
  Z.of_nat (length (snd grp)) <= Z.max 0 cap /\
  Forall (fun r => yields (news ddgs (fst grp) "wt-wt" "Off" "d") r /\ acceptable r) (snd grp).

Definition blocks_of (grp : string * list SearchResult) : list string :=
  map (item_of (fst grp)) (snd grp).

(** The search provider raises [e]: constructing the session does, or the
    sequence it gives for one of the fixed queries ends in [e]. *)
Definition provider_raises (DDGS_new : exn + DDGS) (e : exn) : Prop :=
  DDGS_new = inl e \/
  exists ddgs query,
    DDGS_new = inr ddgs /\ In query keywords /\
    gen_raises (news ddgs query "wt-wt" "Off" "d") e.

(** The log lines of [search_news]. *)
Definition search_start_msg (target_date : date) : string :=
  "🔍 開始搜尋 " +:+ strftime_Ymd target_date +:+ " 的嚴肅國際新聞...".
Definition search_error_msg (e : exn) : string := "⚠️ 搜尋時發生錯誤: " +:+ e.
Definition search_done_msg (results : list string) : string :=
  "✅ 搜尋完成，共保留 " +:+ Str.of_nat (length results) +:+ " 則高價值新聞。".

(** The hits kept for the queries, flattened in order, each with its query. *)
Definition flatten_groups (groups : list (string * list SearchResult))
    : list (string * SearchResult) :=
  concat (map (fun grp => map (pair (fst grp)) (snd grp)) groups).

(** Where an accepted hit came from: the sequence the session gave for one
    of the fixed queries. *)
Definition came_from (DDGS_new : exn + DDGS) (query : string) (r : SearchResult) : Prop :=
  In query keywords /\
  exists ddgs, DDGS_new = inr ddgs /\ yields (news ddgs query "wt-wt" "Off" "d") r.

(** The first line of a block names its query. *)
Definition category_header (query : string) : string := "類別: " +:+ query +:+ Str.nl.

(** How many of the blocks a query contributed. *)
Definition count_category (query : string) (blocks : list string) : nat :=
  length (List.filter (fun block => String.prefix (category_header query) block) blocks).

(** ** Summarizer *)

Definition generation_config : GenerateContentConfig := {| temperature := (3, 10) |}.

(** The models of the generation calls in a trace, in order. *)
Fixpoint models_called (evs : trace) : list string :=
  match evs with
  | [] => []
  | GenerateContent model _ _ :: evs' => model :: models_called evs'
  | _ :: evs' => models_called evs'
  end.

(** Events [generate_summary] can produce. *)
Definition summary_event (ev : event) : Prop :=
  match ev with
  | Call fn => fn = "generate_summary"
  | Log _ _ | GenerateContent _ _ _ => True
  | _ => False
  end.

(** The generation call for this model fails. *)
Definition model_fails (client : genai_client) (prompt model : string) : Prop :=
  exists e, client model prompt generation_config = inl e.

(** What one candidate adds to the trace: up to its call, and after the call
    returned or raised. *)
Definition attempt_events (prompt model_name : string) : trace :=
  [Log INFO ("🧪 嘗試使用模型: " +:+ model_name +:+ " 進行撰寫...");
   GenerateContent model_name prompt generation_config].

Definition success_events (prompt model_name : string) : trace :=
  attempt_events prompt model_name ++
  [Log INFO ("✨ 成功使用 " +:+ model_name +:+ " 完成報告！")].

Definition failure_events (prompt model_name : string) (e : exn) : trace :=
  attempt_events prompt model_name ++
  [Log WARNING ("⚠️ 模型 " +:+ model_name +:+ " 執行失敗 (可能是額度不足或不支援): " +:+ e);
   Log INFO "🔄 正在切換至下一個備援模型..."].

(** The log lines of [generate_summary] outside the loop. *)
Definition thinking_msg : string := "🧠 Gemini 正在構思新聞報告...".
Definition all_failed_msg : string := "❌ 所有模型皆嘗試失敗，無法生成報告。".

(** The prompt [generate_summary] builds. *)
Definition prompt_of (news_list : list string) (target_date : date) : string :=
  build_prompt (strftime_Ymd target_date) news_list.

(** ** Publisher and orchestrator *)

(** The log lines of [send_line_push] and [main]. *)
Definition sending_msg : string := "🚀 正在發送 LINE 訊息...".
Definition sent_msg : string := "✅ LINE 訊息發送成功！".
Definition push_failed_msg (e : exn) : string := "❌ LINE 發送失敗: " +:+ e.
Definition skip_msg : string := "📭 今天沒有足夠的新聞，跳過。".

(** The request [send_line_push] builds for a message. *)
Definition push_request (LINE_USER_ID : option string) (message : string)
    : PushMessageRequest :=
  {| to := LINE_USER_ID; messages := [ {| tm_text := message |} ] |}.

(** The messaging provider raises [e] on this message: entering the client
    does, or the push does. *)
Definition messaging_raises (sdk : LineSdk) (token user : option string)
    (message : string) (e : exn) : Prop :=
  let cfg := {| access_token := token |} in
  ApiClient_raises sdk cfg = Some e \/
  (ApiClient_raises sdk cfg = None /\
   push_message_raises sdk cfg (push_request user message) = Some e).


(** The frame lines [main] prints around the digest. *)
Definition bar_top : string := Str.nl +:+ Str.repeat "=" 30.
Definition bar_bottom : string := Str.repeat "=" 30 +:+ Str.nl.

(** Observations on a trace. *)
Definition is_call (fn : string) (ev : event) : Prop := ev = Call fn.
Definition is_print (ev : event) : Prop := exists line, ev = Print line.

(** No event of the trace satisfies [bad]. *)
Definition never (bad : event -> Prop) (tr : trace) : Prop :=
  Forall (fun ev => ~ bad ev) tr.

(** The trace [main] hands to the search when started from nothing. *)
Definition main_prologue : trace := [Call "main"; Call "get_target_date"].

(** ** Start-up *)

Definition required_secrets : list string :=
  ["GEMINI_API_KEY"; "LINE_CHANNEL_ACCESS_TOKEN"; "LINE_USER_ID"].

Definition missing_msg : string := "❌ 環境變數缺失！請檢查 .env 檔案。".

(** ** Providers that deliver lists, and views of a trace *)

(** The filter of the inner loop as one test: the title holds no blocklisted
    substring, and title and URL are non-empty. *)
Definition acceptable_b (r : SearchResult) : bool :=
  negb (any (fun bad_word => Str.contains bad_word (dict_get r "title" "")) block_list)
  && (Str.truthy (dict_get r "title" "") && Str.truthy (dict_get r "url" "")).

(** The sequence that yields [hits] and then goes on as [rest]. *)
Definition gen_app (hits : list SearchResult) (rest : news_gen) : news_gen :=
  fold_right GenYield rest hits.

(** The sequence that yields [hits] and ends. *)
Definition gen_of_list (hits : list SearchResult) : news_gen := gen_app hits GenStop.

(** The first [room] hits that pass the filter. *)
Definition kept (room : Z) (hits : list SearchResult) : list SearchResult :=
  take (Z.to_nat room) (List.filter acceptable_b hits).

(** The sequence delivers [hits] to a loop with this cap: it yields them and
    ends; or they hold at least [cap] hits that pass the filter and the
    sequence yields at least one more item, after which it may go on in any
    way. *)
Definition delivers (cap : Z) (gen : news_gen) (hits : list SearchResult) : Prop :=
  gen = gen_of_list hits \/
  (cap <= Z.of_nat (length (List.filter acceptable_b hits)) /\
   exists r rest, gen = gen_app hits (GenYield r rest)).

(** The loop of one query, having accepted [count] hits and pulling from the
    sequence, meets the exception [e]: the sequence raises it on a pull the
    loop makes.  The loop pulls before it tests the cap, and it pulls on
    after an item only if the item was pulled with the cap not yet reached;
    an item that passes the filter is accepted and counted. *)
Inductive pull_meets (cap : Z) : Z -> news_gen -> exn -> Prop :=
| pull_meets_raise count e :
    pull_meets cap count (GenRaise e) e
| pull_meets_yield count r rest e :
    count < cap ->
    pull_meets cap (if acceptable_b r then count + 1 else count) rest e ->
    pull_meets cap count (GenYield r rest) e.

(** The loop of one query comes to its end without meeting an exception:
    the sequence ends, or an item is pulled with the cap reached. *)
Inductive pull_completes (cap : Z) : Z -> news_gen -> Prop :=
| pull_completes_stop count :
    pull_completes cap count GenStop
| pull_completes_break count r rest :
    cap <= count ->
    pull_completes cap count (GenYield r rest)
| pull_completes_yield count r rest :
    count < cap ->
    pull_completes cap (if acceptable_b r then count + 1 else count) rest ->
    pull_completes cap count (GenYield r rest).

(** The search provider raises [e] during a run of [search_news] with this
    cap: constructing the session raises it; or the session is constructed,
    the loops of the queries before some query come to their end, and the
    loop of that query meets [e]. *)
Definition search_meets (DDGS_new : exn + DDGS) (cap : Z) (e : exn) : Prop :=
  DDGS_new = inl e \/
  exists ddgs pre query post,
    DDGS_new = inr ddgs /\
    keywords = pre ++ query :: post /\
    Forall (fun q => pull_completes cap 0 (news ddgs q "wt-wt" "Off" "d")) pre /\
    pull_meets cap 0 (news ddgs query "wt-wt" "Off" "d") e.

(** The blocks of the hits kept for each of the queries, in order. *)
Definition blocks_for (cap : Z) (hits_of : string -> list SearchResult)
    (queries : list string) : list string :=
  concat (map (fun query => map (item_of query) (kept cap (hits_of query))) queries).

(** What issuing one query adds to the trace. *)
Definition query_events (query : string) : trace :=
  [Log INFO ("   正在搜尋分類: " +:+ query +:+ " ..."); DdgsNews query "wt-wt" "Off" "d"].

(** The search provider's side of a trace: the session and the queries. *)
Definition session_view (evs : trace) : trace :=
  List.filter
    (fun ev =>
       match ev with
       | Enter DDGS_session | Exit DDGS_session | DdgsNews _ _ _ _ => true
       | _ => false
       end) evs.

(** The generation calls of a trace with their arguments, in order. *)
Fixpoint generation_calls (evs : trace) : list (string * string * GenerateContentConfig) :=
  match evs with
  | [] => []
  | GenerateContent model contents config :: evs' =>
      (model, contents, config) :: generation_calls evs'
  | _ :: evs' => generation_calls evs'
  end.

(** The messaging provider's side of a trace. *)
Definition client_view (evs : trace) : trace :=
  List.filter
    (fun ev =>
       match ev with
       | Enter LINE_ApiClient | Exit LINE_ApiClient | PushMessage _ _ => true
       | _ => false
       end) evs.

(** The lines printed in a trace, in order. *)
Fixpoint prints (evs : trace) : list string :=
  match evs with
  | [] => []
  | Print line :: evs' => line :: prints evs'
  | _ :: evs' => prints evs'
  end.

(** The push requests of a trace, in order. *)
Fixpoint pushes (evs : trace) : list (Configuration * PushMessageRequest) :=
  match evs with
  | [] => []
  | PushMessage cfg req :: evs' => (cfg, req) :: pushes evs'
  | _ :: evs' => pushes evs'
  end.

(** A statement is framed when it only appends to the trace and ends the
    same way whatever the trace held before. *)
Definition framed {R A} (m : M R A) : Prop :=
  forall tr, m tr = (fst (m []), tr ++ snd (m [])).

(** ** Sample inputs *)

Module Sample.

Definition hit (title body url : string) : SearchResult :=
  <["title" := title]> (<["body" := body]> (<["url" := url]> ∅)).

Definition fusion : SearchResult :=
  hit "AI Breakthrough in Fusion Research" "..." "http://x".
Definition tour : SearchResult :=
  hit "Taylor Swift announces tour" "..." "http://y".
Definition summit : SearchResult :=
  hit "Summit ends without accord" "Talks stall" "http://z".

Definition target_date : date := {| year := 2025; month := 3; day := 7 |}.

(** The first query yields two hits, one of them blocklisted, and four more
    acceptable ones; the others yield nothing. *)
Definition ddgs_ok : DDGS :=
  {| news := fun query _ _ _ =>
       if String.eqb query "Major International Geopolitics -celebrity -gossip -sport -movie"
       then GenYield fusion (GenYield tour (GenYield summit
              (GenYield summit (GenYield summit (GenYield summit GenStop)))))
       else GenStop |}.

(** The first query yields an acceptable hit; the second raises. *)
Definition ddgs_failing : DDGS :=
  {| news := fun query _ _ _ =>
       if String.eqb query "Major International Geopolitics -celebrity -gossip -sport -movie"
       then GenYield fusion GenStop
       else GenRaise "timeout" |}.

(** The first candidate is out of quota, the second answers. *)
Definition client_fallback : genai_client :=
  fun model _ _ =>
    if String.eqb model "gemini-flash-latest"
    then inr {| text := Some "Report body" |}
    else inl "quota".

(** Every candidate answers with the empty text. *)
Definition client_empty : genai_client :=
  fun _ _ _ => inr {| text := Some "" |}.


(** The push fails. *)
Definition sdk_down : LineSdk :=
  {| ApiClient_raises := fun _ => None;
     push_message_raises := fun _ _ => Some "boom" |}.

Definition geopolitics : string :=
  "Major International Geopolitics -celebrity -gossip -sport -movie".

(** An environment without [LINE_USER_ID]. *)
Definition environ_no_user : gmap string string :=
  <["GEMINI_API_KEY" := "key"]> (<["LINE_CHANNEL_ACCESS_TOKEN" := "token"]> ∅).

(** The first query yields three acceptable hits and a fourth item, then
    fails; the others yield nothing. *)
Definition ddgs_late_failure : DDGS :=
  {| news := fun query _ _ _ =>
       if String.eqb query geopolitics
       then GenYield fusion (GenYield summit (GenYield summit
              (GenYield tour (GenRaise "late"))))
       else GenStop |}.

Definition hits_late_failure (query : string) : list SearchResult :=
  if String.eqb query geopolitics then [fusion; summit; summit] else [].

(** The first query yields three acceptable hits and fails on the next
    pull. *)
Definition ddgs_fails_at_cap : DDGS :=
  {| news := fun query _ _ _ =>
       if String.eqb query geopolitics
       then GenYield fusion (GenYield summit (GenYield summit (GenRaise "timeout")))
       else GenStop |}.

(** An environment where [LINE_USER_ID] is set to the empty string. *)
Definition environ_empty_user : gmap string string :=
  <["LINE_USER_ID" := ""]> environ_no_user.

(** An environment with the three secrets. *)
Definition environ_full : gmap string string :=
  <["LINE_USER_ID" := "user"]> environ_no_user.

End Sample.

(** * Properties *)

(** ** The substring test means what it says *)

Lemma append_cons (c : ascii) (s t : string) : String c s +:+ t = String c (s +:+ t).
Proof. reflexivity. Qed.

Lemma prefix_append (needle hay : string) :
  String.prefix needle hay = true <-> exists post, hay = needle +:+ post.
Proof.
  revert hay. induction needle as [|a needle IH]; intros hay.
  - split; [intros _; exists hay; reflexivity | intros _; destruct hay; reflexivity].
  - destruct hay as [|b hay]; simpl.
    + split; [discriminate | intros [post H]; discriminate].
    + destruct (Ascii.ascii_dec a b) as [->|Hne].
      * rewrite IH. split; intros [post H]; exists post.
        -- now rewrite H.
        -- now inversion H.
      * split; [discriminate | intros [post H]; rewrite append_cons in H; congruence].
Qed.

Lemma contains_occurs_in (needle hay : string) :
  Str.contains needle hay = true <-> Str.occurs_in needle hay.
Proof.
  unfold Str.occurs_in. induction hay as [|c hay IH].
  - cbn [Str.contains]. rewrite orb_false_r, prefix_append. split.
    + intros [post H]. exists "", post. exact H.
    + intros [pre [post H]]. destruct pre; simpl in H.
      * exists post. exact H.
      * discriminate.
  - cbn [Str.contains]. rewrite orb_true_iff, prefix_append, IH. split.
    + intros [[post H] | [pre [post H]]].
      * exists "", post. exact H.
      * exists (String c pre), post. simpl. now rewrite H.
    + intros [pre [post H]]. destruct pre as [|c' pre]; simpl in H.
      * left. exists post. exact H.
      * right. inversion H. exists pre, post. reflexivity.
Qed.

Lemma any_block_list_false (title : string) :
  any (fun bad_word => Str.contains bad_word title) block_list = false <->
  forall bad_word, In bad_word block_list -> ~ Str.occurs_in bad_word title.
Proof.
  unfold any. split.
  - intros H bad Hin Hocc. apply contains_occurs_in in Hocc.
    assert (existsb (fun b => Str.contains b title) block_list = true) as Ht.
    { apply existsb_exists. exists bad. split; assumption. }
    rewrite H in Ht. discriminate.
  - intros H. apply not_true_is_false. intros Ht.
    apply existsb_exists in Ht as [bad [Hin Hc]].
    apply (H bad Hin). now apply contains_occurs_in.
Qed.

Lemma any_block_list_true (title : string) :
  any (fun bad_word => Str.contains bad_word title) block_list = true <->
  exists bad_word, In bad_word block_list /\ Str.occurs_in bad_word title.
Proof.
  unfold any. rewrite existsb_exists.
  split; intros [bad [Hin H]]; exists bad; split; try assumption;
    now apply contains_occurs_in.
Qed.

Lemma truthy_nonempty (s : string) : Str.truthy s = true <-> s <> "".
Proof. destruct s; simpl; split; congruence. Qed.

(** ** Traces only grow *)

Lemma extends_refl P tr : extends P tr tr.
Proof. exists []. split; [now rewrite app_nil_r | constructor]. Qed.

Lemma extends_trans P tr1 tr2 tr3 :
  extends P tr1 tr2 -> extends P tr2 tr3 -> extends P tr1 tr3.
Proof.
  intros [e1 [-> H1]] [e2 [-> H2]]. exists (e1 ++ e2). split.
  - now rewrite app_assoc.
  - apply Forall_app. split; assumption.
Qed.

Lemma extends_snoc P tr ev : P ev -> extends P tr (tr ++ [ev]).
Proof. intros H. exists [ev]. split; [reflexivity | repeat constructor; exact H]. Qed.

(** ** Running the combinators *)

Lemma for_each_cons {R X S} (x : X) (xs : list X) (s : S) (body : X -> S -> M R (ctl S)) tr :
  for_each (x :: xs) s body tr =
  match body x s tr with
  | (Normal (Next s'), tr') => for_each xs s' body tr'
  | (Normal (Brk s'), tr') => (Normal s', tr')
  | (Returned r, tr') => (Returned r, tr')
  | (Raised e, tr') => (Raised e, tr')
  | (Exited c, tr') => (Exited c, tr')
  end.
Proof.
  cbn [for_each]. unfold bind.
  destruct (body x s tr) as [[[s'|s']|r|e|c] tr']; reflexivity.
Qed.

Lemma bind_run {R A B} (m : M R A) (k : A -> M R B) tr :
  bind m k tr =
  match m tr with
  | (Normal a, tr') => k a tr'
  | (Returned r, tr') => (Returned r, tr')
  | (Raised e, tr') => (Raised e, tr')
  | (Exited c, tr') => (Exited c, tr')
  end.
Proof. reflexivity. Qed.

(** A [return] ends the function: what is written after it does not run. *)
Lemma bind_return {R A B} (r : R) (k : A -> M R B) :
  bind (return_ r) k = return_ r.
Proof. reflexivity. Qed.

Lemma call_run {R R'} fn (body : M R R) tr :
  call (R':=R') fn body tr =
  match body (tr ++ [Call fn]) with
  | (Normal r, tr') | (Returned r, tr') => (Normal r, tr')
  | (Raised e, tr') => (Raised e, tr')
  | (Exited c, tr') => (Exited c, tr')
  end.
Proof. unfold call. destruct (body (tr ++ [Call fn])) as [[r|r|e|c] tr']; reflexivity. Qed.

(** ** What the search loops compute *)

Section SearchLoops.

Context {R : Type}.
Variable cap : Z.

(** One iteration of the inner loop, by cases. *)
Lemma search_hit_cases query r results count tr :
  search_hit (R:=R) cap query r (results, count) tr =
  (Normal
     (if count >=? cap then Brk (results, count)
      else if any (fun bad_word => Str.contains bad_word (dict_get r "title" "")) block_list
           then Next (results, count)
           else if Str.truthy (dict_get r "title" "") && Str.truthy (dict_get r "url" "")
                then Next (results ++ [item_of query r], count + 1)
                else Next (results, count)),
   tr).
Proof.
  unfold search_hit.
  destruct (count >=? cap); [reflexivity|].
  destruct (any _ block_list); [reflexivity|].
  destruct (Str.truthy _ && Str.truthy _); reflexivity.
Qed.

(** One turn of the inner loop on a sequence that yields a hit. *)
Lemma for_gen_yield query r rest results count tr :
  for_gen (R:=R) (GenYield r rest) (results, count) (search_hit cap query) tr =
  if count >=? cap then (Normal (results, count), tr)
  else if any (fun bad_word => Str.contains bad_word (dict_get r "title" "")) block_list
       then for_gen rest (results, count) (search_hit cap query) tr
       else if Str.truthy (dict_get r "title" "") && Str.truthy (dict_get r "url" "")
            then for_gen rest (results ++ [item_of query r], count + 1) (search_hit cap query) tr
            else for_gen rest (results, count) (search_hit cap query) tr.
Proof.
  cbn [for_gen]. unfold bind. rewrite search_hit_cases.
  destruct (count >=? cap); [reflexivity|].
  destruct (any _ block_list); [reflexivity|].
  destruct (Str.truthy _ && Str.truthy _); reflexivity.
Qed.

(** The inner loop: it raises what the sequence raises, or appends the
    blocks of some acceptable hits, no more than the cap leaves room for;
    it logs nothing. *)
Lemma for_gen_search_hit query gen : forall results count tr,
  (exists e, gen_raises gen e /\
     for_gen (R:=R) gen (results, count) (search_hit cap query) tr = (Raised e, tr)) \/
  (exists acc,
     Z.of_nat (length acc) <= Z.max 0 (cap - count) /\
     Forall (fun r => yields gen r /\ acceptable r) acc /\
     for_gen (R:=R) gen (results, count) (search_hit cap query) tr =
     (Normal (results ++ map (item_of query) acc, count + Z.of_nat (length acc)), tr)).
Proof.
  induction gen as [|r rest IH|e]; intros results count tr.
  - right. exists []. cbn [for_gen map length]. rewrite app_nil_r, Z.add_0_r.
    split; [lia | split; [constructor | reflexivity]].
  - rewrite for_gen_yield.
    destruct (count >=? cap) eqn:Hcap.
    { right. exists []. cbn [map length]. rewrite app_nil_r, Z.add_0_r.
      split; [lia | split; [constructor | reflexivity]]. }
    assert (forall res cnt,
      cnt = count \/ cnt = count + 1 ->
      (exists e, gen_raises (GenYield r rest) e /\
         for_gen (R:=R) rest (res, cnt) (search_hit cap query) tr = (Raised e, tr)) \/
      (exists acc,
         Z.of_nat (length acc) <= Z.max 0 (cap - cnt) /\
         Forall (fun r0 => yields (GenYield r rest) r0 /\ acceptable r0) acc /\
         for_gen (R:=R) rest (res, cnt) (search_hit cap query) tr =
         (Normal (res ++ map (item_of query) acc, cnt + Z.of_nat (length acc)), tr))) as Hrest.
    { intros res cnt _. destruct (IH res cnt tr) as [[e [Hg He]] | [acc [Hlen [Hacc Hrun]]]].
      { left. exists e. split; [now constructor | exact He]. }
      right. exists acc. repeat split; try assumption.
      eapply Forall_impl; [exact Hacc|]. intros r0 [Hy Ha]. split; [now constructor | exact Ha]. }
    destruct (any _ block_list) eqn:Hany.
    { destruct (Hrest results count) as [He | [acc H]]; [now left | now left | right; now exists acc]. }
    destruct (Str.truthy _ && Str.truthy _) eqn:Htruthy.
    2:{ destruct (Hrest results count) as [He | [acc H]]; [now left | now left | right; now exists acc]. }
    destruct (Hrest (results ++ [item_of query r]) (count + 1)) as [He | [acc [Hlen [Hacc Hrun]]]];
      [now right | now left |].
    right. exists (r :: acc). split; [|split].
    + cbn [length]. lia.
    + constructor; [|exact Hacc]. split; [constructor|].
      apply andb_true_iff in Htruthy as [Ht Hu].
      repeat split; [|now apply truthy_nonempty..].
      intros Hb. apply any_block_list_true in Hb. congruence.
    + rewrite Hrun. cbn [map length]. rewrite <- app_assoc.
      replace (count + 1 + Z.of_nat (length acc)) with (count + Z.of_nat (S (length acc))) by lia.
      reflexivity.
  - left. exists e. split; [constructor | reflexivity].
Qed.

(** One turn of the outer loop: the query is logged and issued, then the
    inner loop runs from [count = 0]. *)
Lemma search_query_spec ddgs query results tr :
  let tr0 := (tr ++ [Log INFO ("   正在搜尋分類: " +:+ query +:+ " ...")])
               ++ [DdgsNews query "wt-wt" "Off" "d"] in
  (exists e, gen_raises (news ddgs query "wt-wt" "Off" "d") e /\
     search_query (R:=R) ddgs cap query results tr = (Raised e, tr0)) \/
  (exists acc,
     group_ok ddgs cap (query, acc) /\
     search_query (R:=R) ddgs cap query results tr =
     (Normal (Next (results ++ blocks_of (query, acc))), tr0)).
Proof.
  intros tr0. unfold search_query, logger_info, emit, bind.
  destruct (for_gen_search_hit query (news ddgs query "wt-wt" "Off" "d") results 0 tr0)
    as [[e [Hg He]] | [acc [Hlen [Hacc Hrun]]]]; fold tr0.
  - left. exists e. split; [exact Hg | now rewrite He].
  - right. exists acc. split.
    + split; [cbn [snd]; lia | exact Hacc].
    + now rewrite Hrun.
Qed.

Lemma search_query_events query tr :
  extends search_event tr
    ((tr ++ [Log INFO ("   正在搜尋分類: " +:+ query +:+ " ...")])
       ++ [DdgsNews query "wt-wt" "Off" "d"]).
Proof. eapply extends_trans; apply extends_snoc; exact I. Qed.

(** The outer loop over any list of queries. *)
Lemma for_each_search_query ddgs queries : forall results tr,
  (exists e tr',
     for_each (R:=R) queries results (search_query ddgs cap) tr = (Raised e, tr') /\
     extends search_event tr tr' /\
     exists query, In query queries /\ gen_raises (news ddgs query "wt-wt" "Off" "d") e) \/
  (exists groups tr',
     map fst groups = queries /\
     Forall (group_ok ddgs cap) groups /\
     extends search_event tr tr' /\
     for_each (R:=R) queries results (search_query ddgs cap) tr =
     (Normal (results ++ concat (map blocks_of groups)), tr')).
Proof.
  induction queries as [|query queries IH]; intros results tr.
  - right. exists [], tr. cbn [map concat for_each]. rewrite app_nil_r.
    repeat split; [constructor | apply extends_refl].
  - rewrite for_each_cons.
    pose proof (search_query_events query tr) as Hev.
    destruct (search_query_spec ddgs query results tr) as [[e [Hg He]] | [acc [Hok Hrun]]].
    + left. rewrite He. eexists _, _. split; [reflexivity|]. split; [exact Hev|].
      exists query. split; [now left | exact Hg].
    + rewrite Hrun.
      destruct (IH (results ++ blocks_of (query, acc))
                  ((tr ++ [Log INFO ("   正在搜尋分類: " +:+ query +:+ " ...")])
                     ++ [DdgsNews query "wt-wt" "Off" "d"]))
        as [[e [tr' [He [Hext [q [Hin Hg]]]]]] | [groups [tr' [Hq [Hg [Hext Hrest]]]]]].
      * left. exists e, tr'. split; [exact He|].
        split; [eapply extends_trans; eassumption|].
        exists q. split; [now right | exact Hg].
      * right. exists ((query, acc) :: groups), tr'. repeat split.
        -- cbn [map fst]. now rewrite Hq.
        -- constructor; assumption.
        -- eapply extends_trans; eassumption.
        -- rewrite Hrest. cbn [map concat]. now rewrite app_assoc.
Qed.

(** The [try] block: the session is opened, the queries are run, the
    session is closed. *)
Lemma search_news_try_spec DDGS_new results tr :
  (exists e tr',
     search_news_try (R:=R) DDGS_new cap results tr = (Raised e, tr') /\
     extends search_event tr tr' /\
     provider_raises DDGS_new e) \/
  (exists ddgs groups tr',
     DDGS_new = inr ddgs /\
     map fst groups = keywords /\
     Forall (group_ok ddgs cap) groups /\
     extends search_event tr tr' /\
     search_news_try (R:=R) DDGS_new cap results tr =
     (Normal (results ++ concat (map blocks_of groups)), tr')).
Proof.
  unfold search_news_try, with_. destruct DDGS_new as [e | ddgs].
  - left. exists e, tr. split; [reflexivity|]. split; [apply extends_refl | now left].
  - assert (extends search_event tr (tr ++ [Enter DDGS_session])) as Hin
      by (apply extends_snoc; exact I).
    destruct (for_each_search_query ddgs keywords results (tr ++ [Enter DDGS_session]))
      as [[e [tr' [He [Hext [q [Hq Hg]]]]]] | [groups [tr' [Hq [Hg [Hext Hrun]]]]]].
    + left. rewrite He. eexists _, _. split; [reflexivity|]. split.
      * eapply extends_trans; [exact Hin|]. eapply extends_trans; [exact Hext|].
        apply extends_snoc. exact I.
      * right. exists ddgs, q. repeat split; assumption.
    + right. rewrite Hrun. exists ddgs, groups, (tr' ++ [Exit DDGS_session]).
      repeat split; try assumption.
      eapply extends_trans; [exact Hin|]. eapply extends_trans; [exact Hext|].
      apply extends_snoc. exact I.
Qed.

End SearchLoops.

(** [search_news] in terms of its [try] block. *)
Lemma search_news_run {R} DDGS_new target_date cap tr :
  search_news (R:=R) DDGS_new target_date cap tr =
  match search_news_try (R:=list string) DDGS_new cap []
          ((tr ++ [Call "search_news"]) ++ [Log INFO (search_start_msg target_date)]) with
  | (Normal results, tr1) => (Normal results, tr1 ++ [Log INFO (search_done_msg results)])
  | (Raised e, tr1) => (Normal [], tr1 ++ [Log ERROR (search_error_msg e)])
  | (Returned r, tr1) => (Normal r, tr1)
  | (Exited c, tr1) => (Exited c, tr1)
  end.
Proof.
  unfold search_news, search_news_body. rewrite call_run.
  unfold logger_info, logger_error, emit, try_except, return_, bind.
  fold (search_start_msg target_date).
  destruct (search_news_try DDGS_new cap []
              ((tr ++ [Call "search_news"]) ++ [Log INFO (search_start_msg target_date)]))
    as [[results|r|e|c] tr1]; reflexivity.
Qed.

(** [search_news] always returns: the empty list, or for each query in
    order the blocks of the hits kept for it. *)
Lemma search_news_spec {R} DDGS_new target_date cap tr :
  exists groups tr',
    search_news (R:=R) DDGS_new target_date cap tr =
    (Normal (concat (map blocks_of groups)), tr') /\
    extends search_event tr tr' /\
    (groups = [] \/
     exists ddgs, DDGS_new = inr ddgs /\ map fst groups = keywords /\
                  Forall (group_ok ddgs cap) groups).
Proof.
  rewrite search_news_run.
  assert (extends search_event tr
            ((tr ++ [Call "search_news"]) ++ [Log INFO (search_start_msg target_date)])) as Hin
    by (eapply extends_trans; apply extends_snoc; [reflexivity | exact I]).
  destruct (search_news_try_spec (R:=list string) cap DDGS_new []
              ((tr ++ [Call "search_news"]) ++ [Log INFO (search_start_msg target_date)]))
    as [[e [tr' [He [Hext _]]]] | [ddgs [groups [tr' [Hd [Hq [Hg [Hext Hrun]]]]]]]].
  - rewrite He. exists [], (tr' ++ [Log ERROR (search_error_msg e)]).
    split; [reflexivity|]. split; [|now left].
    eapply extends_trans; [exact Hin|]. eapply extends_trans; [exact Hext|].
    apply extends_snoc. exact I.
  - rewrite Hrun. cbn [app]. eexists groups, _. split; [reflexivity|]. split.
    + eapply extends_trans; [exact Hin|]. eapply extends_trans; [exact Hext|].
      apply extends_snoc. exact I.
    + right. exists ddgs. repeat split; assumption.
Qed.

(** ** Searcher: blocklist, cap, failure *)

Lemma flatten_groups_blocks groups :
  concat (map blocks_of groups) =
  map (fun qr => item_of (fst qr) (snd qr)) (flatten_groups groups).
Proof.
  unfold flatten_groups. induction groups as [|[query acc] groups IH].
  - reflexivity.
  - cbn [map concat]. rewrite map_app, <- IH. f_equal.
    unfold blocks_of. cbn [fst snd]. rewrite map_map. reflexivity.
Qed.

Lemma flatten_groups_ok ddgs cap (P : string -> Prop) groups :
  Forall (group_ok ddgs cap) groups ->
  Forall P (map fst groups) ->
  Forall (fun qr => P (fst qr) /\
                    yields (news ddgs (fst qr) "wt-wt" "Off" "d") (snd qr) /\
                    acceptable (snd qr))
         (flatten_groups groups).
Proof.
  unfold flatten_groups. induction groups as [|[query acc] groups IH]; intros Hok HP.
  - constructor.
  - cbn [map concat fst snd] in *.
    apply Forall_cons_1 in Hok as [[_ Hacc] Hok].
    apply Forall_cons_1 in HP as [Hq HP].
    apply Forall_app. split; [|now apply IH].
    clear IH Hok HP. cbn [fst snd] in Hacc.
    induction Hacc as [|r acc [Hy Ha] _ IHacc]; constructor; [|exact IHacc].
    cbn [fst snd]. split; [|split]; assumption.
Qed.

(** C1.  Every block [search_news] returns is the formatting of a hit that
    the session yielded for one of the fixed queries and whose title holds
    no blocklisted substring; and a hit whose title does hold one is passed
    over by the loop, whatever its query, body and URL, without touching
    [results] or [count]. *)
Theorem search_news_excludes_blocklisted {R} DDGS_new target_date cap tr :
  (exists accepted tr',
     search_news (R:=R) DDGS_new target_date cap tr =
     (Normal (map (fun qr => item_of (fst qr) (snd qr)) accepted), tr') /\
     Forall (fun qr => came_from DDGS_new (fst qr) (snd qr) /\ ~ title_blocked (snd qr))
            accepted) /\
  (forall query r rest results count tr0,
     title_blocked r ->
     for_gen (R:=R) (GenYield r rest) (results, count) (search_hit cap query) tr0 =
     if count >=? cap then (Normal (results, count), tr0)
     else for_gen rest (results, count) (search_hit cap query) tr0).
Proof.
  split.
  - destruct (search_news_spec (R:=R) DDGS_new target_date cap tr)
      as [groups [tr' [Hrun [_ Hgroups]]]].
    exists (flatten_groups groups), tr'. rewrite <- flatten_groups_blocks.
    split; [exact Hrun|].
    destruct Hgroups as [-> | [ddgs [Hd [Hq Hok]]]]; [constructor|].
    eapply Forall_impl.
    + apply (flatten_groups_ok ddgs cap (fun q => In q keywords) groups Hok).
      rewrite Hq. apply List.Forall_forall. auto.
    + intros [query r] [Hin [Hy [Hnb _]]]. cbn [fst snd] in *.
      split; [|exact Hnb]. split; [exact Hin|]. now exists ddgs.
  - intros query r rest results count tr0 Hb.
    rewrite for_gen_yield. apply any_block_list_true in Hb. rewrite Hb.
    reflexivity.
Qed.

Lemma count_category_app query l1 l2 :
  count_category query (l1 ++ l2) = (count_category query l1 + count_category query l2)%nat.
Proof. unfold count_category. now rewrite List.filter_app, length_app. Qed.

(** Among the fixed queries, a block carries the header of its own query and
    of no other. *)
Lemma header_of_item query query' title body url :
  In query keywords -> In query' keywords ->
  String.prefix (category_header query) (news_item query' title body url) =
  String.eqb query query'.
Proof.
  unfold keywords. cbn [In].
  intros [<- | [<- | [<- | []]]] [<- | [<- | [<- | []]]]; reflexivity.
Qed.

Lemma count_category_group query grp :
  In query keywords -> In (fst grp) keywords ->
  count_category query (blocks_of grp) =
  if String.eqb query (fst grp) then length (snd grp) else 0%nat.
Proof.
  intros Hq Hk. destruct grp as [query' acc]. cbn [fst snd] in *.
  unfold blocks_of, count_category. cbn [fst snd].
  induction acc as [|r acc IH]; cbn [map List.filter].
  - now destruct (String.eqb query query').
  - unfold item_of at 1. rewrite (header_of_item query query' _ _ _ Hq Hk).
    destruct (String.eqb query query'); cbn [length]; now rewrite IH.
Qed.

(** Whatever the cap, a query contributes at most [max 0 cap] blocks. *)
Lemma search_news_per_query_bound {R} DDGS_new target_date cap tr query :
  In query keywords ->
  exists blocks tr',
    search_news (R:=R) DDGS_new target_date cap tr = (Normal blocks, tr') /\
    Z.of_nat (count_category query blocks) <= Z.max 0 cap.
Proof.
  intros Hin.
  destruct (search_news_spec (R:=R) DDGS_new target_date cap tr)
    as [groups [tr' [Hrun [_ Hgroups]]]].
  exists (concat (map blocks_of groups)), tr'. split; [exact Hrun|].
  destruct Hgroups as [-> | [ddgs [_ [Hq Hok]]]]; [cbn; lia|].
  destruct groups as [|[k1 a1] [|[k2 a2] [|[k3 a3] [|? ?]]]]; try discriminate Hq.
  cbn [map fst] in Hq. injection Hq as -> -> ->.
  apply Forall_cons_1 in Hok as [[H1 _] Hok].
  apply Forall_cons_1 in Hok as [[H2 _] Hok].
  apply Forall_cons_1 in Hok as [[H3 _] _].
  cbn [snd] in H1, H2, H3.
  cbn [map concat]. rewrite !count_category_app.
  rewrite !count_category_group by (cbn [fst]; unfold keywords; cbn [In]; tauto).
  cbn [fst snd].
  unfold keywords in Hin. cbn [In] in Hin.
  destruct Hin as [<- | [<- | [<- | []]]]; vm_compute String.eqb;
    cbn [count_category List.filter concat length]; lia.
Qed.

(** C2.  With a non-negative cap, the blocks any one of the fixed queries
    contributes to the list [search_news] returns number at most the cap. *)
Theorem search_news_cap_per_query {R} DDGS_new target_date cap tr query
    (Hcap : 0 <= cap) (Hquery : In query keywords) :
  exists blocks tr',
    search_news (R:=R) DDGS_new target_date cap tr = (Normal blocks, tr') /\
    Z.of_nat (count_category query blocks) <= cap.
Proof.
  destruct (search_news_per_query_bound (R:=R) DDGS_new target_date cap tr query Hquery)
    as [blocks [tr' [Hrun Hle]]].
  exists blocks, tr'. split; [exact Hrun | lia].
Qed.

(** ** The searcher at sample inputs *)

Lemma search_news_cap_per_query_witness :
  0 <= 3 /\
  In "Major International Geopolitics -celebrity -gossip -sport -movie" keywords /\
  exists blocks tr',
    search_news (R:=unit) (inr Sample.ddgs_ok) Sample.target_date 3 [] = (Normal blocks, tr') /\
    Z.of_nat (count_category
                "Major International Geopolitics -celebrity -gossip -sport -movie" blocks) <= 3.
Proof.
  assert (0 <= 3) as Hcap by lia.
  assert (In "Major International Geopolitics -celebrity -gossip -sport -movie" keywords)
    as Hquery by (left; reflexivity).
  split; [exact Hcap|]. split; [exact Hquery|].
  exact (search_news_cap_per_query (R:=unit) (inr Sample.ddgs_ok) Sample.target_date 3 []
           _ Hcap Hquery).
Defined.

(** The cap is reached in that run: three blocks for the first query. *)
Example search_news_sample_count :
  exists tr',
    search_news (R:=unit) (inr Sample.ddgs_ok) Sample.target_date 3 [] =
    (Normal [item_of "Major International Geopolitics -celebrity -gossip -sport -movie" Sample.fusion;
             item_of "Major International Geopolitics -celebrity -gossip -sport -movie" Sample.summit;
             item_of "Major International Geopolitics -celebrity -gossip -sport -movie" Sample.summit],
     tr').
Proof. eexists. vm_compute. reflexivity. Qed.

(** ** Summarizer: ordered fallback *)

Lemma models_called_app evs1 evs2 :
  models_called (evs1 ++ evs2) = models_called evs1 ++ models_called evs2.
Proof.
  induction evs1 as [|ev evs1 IH]; [reflexivity|].
  destruct ev; cbn [app models_called]; rewrite IH; reflexivity.
Qed.

Section Summarizer.

Variable client : genai_client.
Variable prompt : string.

(** One turn of the loop over the candidates. *)
Lemma try_model_run model_name tr :
  try_model client prompt model_name tt tr =
  match client model_name prompt generation_config with
  | inr response => (Returned (text response), tr ++ success_events prompt model_name)
  | inl e => (Normal (Next tt), tr ++ failure_events prompt model_name e)
  end.
Proof.
  unfold try_model, try_except, generate_content, logger_info, logger_warning, emit, bind.
  fold generation_config.
  destruct (client model_name prompt generation_config) as [e | response];
    cbn; unfold success_events, failure_events, attempt_events;
    rewrite <- !app_assoc; reflexivity.
Qed.

Lemma success_events_ok model_name :
  Forall summary_event (success_events prompt model_name) /\
  models_called (success_events prompt model_name) = [model_name].
Proof. split; [repeat constructor | reflexivity]. Qed.

Lemma failure_events_ok model_name e :
  Forall summary_event (failure_events prompt model_name e) /\
  models_called (failure_events prompt model_name e) = [model_name].
Proof. split; [repeat constructor | reflexivity]. Qed.

(** The loop over any list of candidates: either some candidate is the
    first to succeed, its text is returned and exactly the candidates up to
    it were called, in order; or all fail, all were called, and the loop
    falls through. *)
Lemma for_each_try_model models : forall tr,
  (exists pre model post response evs,
     models = pre ++ model :: post /\
     Forall (model_fails client prompt) pre /\
     client model prompt generation_config = inr response /\
     for_each models tt (try_model client prompt) tr =
     (Returned (text response), tr ++ evs) /\
     Forall summary_event evs /\
     models_called evs = pre ++ [model]) \/
  (exists evs,
     Forall (model_fails client prompt) models /\
     for_each models tt (try_model client prompt) tr = (Normal tt, tr ++ evs) /\
     Forall summary_event evs /\
     models_called evs = models).
Proof.
  induction models as [|model models IH]; intros tr.
  - right. exists []. rewrite app_nil_r. repeat split; constructor.
  - rewrite for_each_cons, try_model_run.
    destruct (client model prompt generation_config) as [e | response] eqn:Hcall.
    + destruct (failure_events_ok model e) as [Hev Hcalled].
      destruct (IH (tr ++ failure_events prompt model e))
        as [[pre [m [post [response [evs [Hsplit [Hpre [Hm [Hrun [Hevs Hmc]]]]]]]]]]
           | [evs [Hall [Hrun [Hevs Hmc]]]]].
      * left. exists (model :: pre), m, post, response, (failure_events prompt model e ++ evs).
        split; [cbn [app]; now rewrite Hsplit|].
        split; [constructor; [now exists e | exact Hpre]|].
        split; [exact Hm|].
        split; [now rewrite Hrun, app_assoc|].
        split; [apply Forall_app; now split|].
        rewrite models_called_app, Hcalled, Hmc. reflexivity.
      * right. exists (failure_events prompt model e ++ evs).
        split; [constructor; [now exists e | exact Hall]|].
        split; [now rewrite Hrun, app_assoc|].
        split; [apply Forall_app; now split|].
        rewrite models_called_app, Hcalled, Hmc. reflexivity.
    + destruct (success_events_ok model) as [Hev Hcalled].
      left. exists [], model, models, response, (success_events prompt model).
      repeat split; try assumption; constructor.
Qed.

(** The same loop, told which candidate is the first to succeed. *)
Lemma for_each_try_model_first model post response : forall pre tr,
  Forall (model_fails client prompt) pre ->
  client model prompt generation_config = inr response ->
  exists evs,
    for_each (pre ++ model :: post) tt (try_model client prompt) tr =
    (Returned (text response), tr ++ evs) /\
    Forall summary_event evs /\
    models_called evs = pre ++ [model].
Proof.
  induction pre as [|m pre IH]; intros tr Hpre Hmodel.
  - cbn [app]. rewrite for_each_cons, try_model_run, Hmodel.
    exists (success_events prompt model). split; [reflexivity|]. apply success_events_ok.
  - apply Forall_cons_1 in Hpre as [[e He] Hpre].
    cbn [app]. rewrite for_each_cons, try_model_run, He.
    destruct (IH (tr ++ failure_events prompt m e) Hpre Hmodel) as [evs [Hrun [Hevs Hmc]]].
    destruct (failure_events_ok m e) as [Hev Hcalled].
    exists (failure_events prompt m e ++ evs).
    split; [now rewrite Hrun, app_assoc|].
    split; [apply Forall_app; now split|].
    rewrite models_called_app, Hcalled, Hmc. reflexivity.
Qed.

End Summarizer.

(** [generate_summary] in terms of its loop. *)
Lemma generate_summary_run {R} client news_list target_date tr :
  generate_summary (R:=R) client news_list target_date tr =
  match news_list with
  | [] => (Normal None, tr ++ [Call "generate_summary"])
  | _ :: _ =>
      match for_each candidate_models tt (try_model client (prompt_of news_list target_date))
              ((tr ++ [Call "generate_summary"]) ++ [Log INFO thinking_msg]) with
      | (Normal _, tr') => (Normal None, tr' ++ [Log ERROR all_failed_msg])
      | (Returned r, tr') => (Normal r, tr')
      | (Raised e, tr') => (Raised e, tr')
      | (Exited c, tr') => (Exited c, tr')
      end
  end.
Proof.
  unfold generate_summary, generate_summary_body. rewrite call_run.
  destruct news_list as [|item news_list]; [reflexivity|].
  cbn [list_truthy negb]. unfold logger_info, logger_error, emit, return_, ret, bind.
  fold (prompt_of (item :: news_list) target_date).
  destruct (for_each candidate_models tt _ _) as [[[]|r|e|c] tr']; reflexivity.
Qed.

(** C4.  When the candidates before [model] in the ordered list all fail and
    the call for [model] succeeds, [generate_summary] returns that call's
    text, and the generation calls it made are those for the candidates up
    to and including [model], in order: none for a later candidate. *)
Theorem generate_summary_first_success {R} client news_list target_date tr
    pre model post response :
  news_list <> [] ->
  candidate_models = pre ++ model :: post ->
  Forall (model_fails client (prompt_of news_list target_date)) pre ->
  client model (prompt_of news_list target_date) generation_config = inr response ->
  exists evs,
    generate_summary (R:=R) client news_list target_date tr =
    (Normal (text response), tr ++ evs) /\
    models_called evs = pre ++ [model].
Proof.
  intros Hne Hsplit Hpre Hmodel. rewrite generate_summary_run.
  destruct news_list as [|item news_list]; [congruence|].
  rewrite Hsplit.
  destruct (for_each_try_model_first client (prompt_of (item :: news_list) target_date)
              model post response pre
              ((tr ++ [Call "generate_summary"]) ++ [Log INFO thinking_msg]) Hpre Hmodel)
    as [evs [Hrun [_ Hmc]]].
  rewrite Hrun. exists ([Call "generate_summary"; Log INFO thinking_msg] ++ evs).
  split; [now rewrite <- !app_assoc|].
  rewrite models_called_app. exact Hmc.
Qed.



(** C9.  The [try] block written after the unconditional [return None] never
    runs: on every input and from every trace, [generate_summary] ends with
    the same value and the same trace as the function without that block. *)
Theorem generate_summary_tail_unreachable {R} client news_list target_date tr :
  generate_summary (R:=R) client news_list target_date tr =
  generate_summary_without_tail (R:=R) client news_list target_date tr.
Proof.
  unfold generate_summary, generate_summary_without_tail,
    generate_summary_body, generate_summary_without_tail_body.
  rewrite bind_return. reflexivity.
Qed.

(** ** Publisher and orchestrator *)

(** [generate_summary] always returns, adding only its own events. *)
Lemma generate_summary_returns {R} client news_list target_date tr :
  exists result tr',
    generate_summary (R:=R) client news_list target_date tr = (Normal result, tr') /\
    extends summary_event tr tr'.
Proof.
  rewrite generate_summary_run.
  assert (extends summary_event tr (tr ++ [Call "generate_summary"])) as Hcall
    by (apply extends_snoc; reflexivity).
  destruct news_list as [|item news_list]; [now eexists _, _|].
  assert (extends summary_event tr ((tr ++ [Call "generate_summary"]) ++ [Log INFO thinking_msg]))
    as Hin by (eapply extends_trans; [exact Hcall | apply extends_snoc; exact I]).
  destruct (for_each_try_model client (prompt_of (item :: news_list) target_date)
              candidate_models ((tr ++ [Call "generate_summary"]) ++ [Log INFO thinking_msg]))
    as [[pre [m [post [response [evs [_ [_ [_ [Hrun [Hevs _]]]]]]]]]]
       | [evs [_ [Hrun [Hevs _]]]]]; rewrite Hrun; eexists _, _; (split; [reflexivity|]).
  - eapply extends_trans; [exact Hin|]. now exists evs.
  - eapply extends_trans; [exact Hin|]. eapply extends_trans; [now exists evs|].
    apply extends_snoc. exact I.
Qed.

(** [send_line_push], by what the messaging provider does. *)
Lemma send_line_push_run {R} sdk token user message tr :
  send_line_push (R:=R) sdk token user message tr =
  let cfg := {| access_token := token |} in
  let req := push_request user message in
  (Normal tt,
   tr ++ Call "send_line_push" :: Log INFO sending_msg ::
     match ApiClient_raises sdk cfg with
     | Some e => [Log ERROR (push_failed_msg e)]
     | None =>
         Enter LINE_ApiClient :: PushMessage cfg req ::
         match push_message_raises sdk cfg req with
         | Some e => [Exit LINE_ApiClient; Log ERROR (push_failed_msg e)]
         | None => [Log INFO sent_msg; Exit LINE_ApiClient]
         end
     end).
Proof.
  unfold send_line_push, send_line_push_body. rewrite call_run.
  unfold try_except, with_, ApiClient_new, push_message, logger_info, logger_error,
    emit, raise, ret, bind.
  fold (push_request user message).
  destruct (ApiClient_raises sdk {| access_token := token |}) as [e|].
  - cbn. rewrite <- !app_assoc. reflexivity.
  - cbv beta iota zeta delta [configuration api_client].
    destruct (push_message_raises sdk {| access_token := token |} (push_request user message))
      as [e|]; cbn; rewrite <- !app_assoc; reflexivity.
Qed.

(** [main] by stages: the search always returns; on an empty list [main]
    logs and returns; otherwise the summarizer always returns, and [main]
    prints and publishes exactly when its value is a non-empty text. *)
Lemma main_stages {R} DDGS_new client sdk token user today tr :
  let tr0 := (tr ++ [Call "main"]) ++ [Call "get_target_date"] in
  exists news tr1,
    search_news (R:=unit) DDGS_new today max_results_per_keyword_default tr0 =
    (Normal news, tr1) /\
    extends search_event tr0 tr1 /\
    match news with
    | [] =>
        main (R:=R) DDGS_new client sdk token user today tr =
        (Normal tt, tr1 ++ [Log WARNING skip_msg])
    | _ :: _ =>
        exists summary tr2,
          generate_summary (R:=unit) client news today tr1 = (Normal summary, tr2) /\
          extends summary_event tr1 tr2 /\
          main (R:=R) DDGS_new client sdk token user today tr =
          if opt_truthy summary then
            send_line_push (R:=R) sdk token user (default "" summary)
              (((tr2 ++ [Print bar_top]) ++ [Print (default "" summary)])
                 ++ [Print bar_bottom])
          else (Normal tt, tr2)
    end.
Proof.
  intros tr0.
  destruct (search_news_spec (R:=unit) DDGS_new today max_results_per_keyword_default tr0)
    as [groups [tr1 [Hsearch [Hext1 _]]]].
  exists (concat (map blocks_of groups)), tr1.
  split; [exact Hsearch|]. split; [exact Hext1|].
  assert (forall k : date -> M unit unit,
            bind (get_target_date today) k (tr ++ [Call "main"]) = k today tr0) as Hdate
    by reflexivity.
  destruct (concat (map blocks_of groups)) as [|item news].
  - unfold main, main_body. rewrite call_run, Hdate, bind_run, Hsearch. reflexivity.
  - destruct (generate_summary_returns (R:=unit) client (item :: news) today tr1)
      as [summary [tr2 [Hsum Hext2]]].
    exists summary, tr2. split; [exact Hsum|]. split; [exact Hext2|].
    unfold main, main_body. rewrite call_run, Hdate, bind_run, Hsearch.
    cbn [list_truthy negb]. unfold ret at 1. rewrite bind_run.
    cbv beta iota. rewrite bind_run, Hsum.
    destruct (opt_truthy summary); [|reflexivity].
    unfold print, emit. rewrite !bind_run. cbv beta iota.
    fold bar_top bar_bottom.
    rewrite !send_line_push_run. reflexivity.
Qed.

Lemma never_extends (P bad : event -> Prop) tr tr' :
  (forall ev, P ev -> ~ bad ev) -> never bad tr -> extends P tr tr' -> never bad tr'.
Proof.
  intros HP Htr [evs [-> Hevs]]. apply Forall_app. split; [exact Htr|].
  eapply Forall_impl; [exact Hevs | exact HP].
Qed.

Lemma search_event_quiet ev :
  search_event ev ->
  ~ is_call "generate_summary" ev /\ ~ is_call "send_line_push" ev /\ ~ is_print ev.
Proof.
  unfold is_call, is_print.
  destruct ev; cbn; intros H; repeat split; try intros [line Hl]; try congruence;
    try contradiction.
Qed.

Lemma summary_event_quiet ev :
  summary_event ev -> ~ is_call "send_line_push" ev /\ ~ is_print ev.
Proof.
  unfold is_call, is_print.
  destruct ev; cbn; intros H; repeat split; try intros [line Hl]; try congruence;
    try contradiction.
Qed.



Lemma main_prologue_quiet :
  never (is_call "generate_summary") main_prologue /\
  never (is_call "send_line_push") main_prologue /\
  never is_print main_prologue.
Proof.
  unfold never, main_prologue, is_call, is_print.
  repeat split; repeat constructor; try congruence; intros [line H]; congruence.
Qed.


(** C10.  When the search kept some items and the summarizer returns the
    empty text, [main] stops where the summarizer left off: the publisher is
    never called and nothing is printed. *)
Theorem main_empty_summary_not_published DDGS_new client sdk token user today
    news tr1 tr2 :
  search_news (R:=unit) DDGS_new today max_results_per_keyword_default main_prologue =
  (Normal news, tr1) ->
  news <> [] ->
  generate_summary (R:=unit) client news today tr1 = (Normal (Some ""), tr2) ->
  main (R:=unit) DDGS_new client sdk token user today [] = (Normal tt, tr2) /\
  never (is_call "send_line_push") tr2 /\
  never is_print tr2.
Proof.
  intros Hsearch Hne Hsum.
  destruct (main_stages (R:=unit) DDGS_new client sdk token user today [])
    as [news' [tr1' [Hsearch' [Hext1 Hmain]]]].
  cbn [app] in Hsearch', Hext1. fold main_prologue in Hsearch', Hext1.
  rewrite Hsearch in Hsearch'. injection Hsearch' as <- <-.
  destruct news as [|item news]; [congruence|].
  destruct Hmain as [summary [tr2' [Hsum' [Hext2 Hmain]]]].
  rewrite Hsum in Hsum'. injection Hsum' as <- <-.
  split; [exact Hmain|].
  destruct main_prologue_quiet as [_ [Hq2 Hq3]].
  split.
  - eapply never_extends; [|eapply never_extends; [|exact Hq2|exact Hext1]|exact Hext2].
    + apply summary_event_quiet.
    + apply search_event_quiet.
  - eapply never_extends; [|eapply never_extends; [|exact Hq3|exact Hext1]|exact Hext2].
    + apply summary_event_quiet.
    + apply search_event_quiet.
Qed.

(** C8.  Whatever the messaging provider does, [send_line_push] returns
    normally; when the provider raises, the last thing it does is log the
    error.  Consequently [main] returns normally as well, whatever the three
    providers do. *)
Theorem send_line_push_never_raises {R} sdk token user message tr :
  (exists evs,
     send_line_push (R:=R) sdk token user message tr = (Normal tt, tr ++ evs) /\
     forall e,
       messaging_raises sdk token user message e ->
       exists evs0, evs = evs0 ++ [Log ERROR (push_failed_msg e)]) /\
  (forall DDGS_new client today tr0,
     exists tr',
       main (R:=R) DDGS_new client sdk token user today tr0 = (Normal tt, tr')).
Proof.
  split.
  - rewrite send_line_push_run. cbv zeta. eexists. split; [reflexivity|].
    unfold messaging_raises. cbv zeta. intros e [He | [Hnone He]].
    + rewrite He. now exists [Call "send_line_push"; Log INFO sending_msg].
    + rewrite Hnone, He.
      now exists [Call "send_line_push"; Log INFO sending_msg; Enter LINE_ApiClient;
                  PushMessage {| access_token := token |} (push_request user message);
                  Exit LINE_ApiClient].
  - intros DDGS_new client today tr0.
    destruct (main_stages (R:=R) DDGS_new client sdk token user today tr0)
      as [news [tr1 [_ [_ Hmain]]]].
    destruct news as [|item news]; [eexists; exact Hmain|].
    destruct Hmain as [summary [tr2 [_ [_ Hmain]]]].
    rewrite Hmain. destruct (opt_truthy summary); [|eexists; reflexivity].
    rewrite send_line_push_run. eexists. reflexivity.
Qed.

(** ** Start-up *)

(** C7.  If one of the three required secrets is set neither in the process
    environment nor in the [.env] file, the script exits with status 1 having
    done nothing but log the error: no generation client is constructed, the
    pipeline is not entered, no provider is contacted. *)
Theorem missing_secret_exits DDGS_new genai_Client sdk today
    (dotenv environ : gmap string string) key :
  In key required_secrets ->
  environ !! key = None ->
  dotenv !! key = None ->
  run_script DDGS_new genai_Client sdk today dotenv environ =
  (1, [Log ERROR missing_msg]).
Proof.
  intros Hkey Henv Hdot.
  assert (load_dotenv dotenv environ !! key = None) as Hnone.
  { unfold load_dotenv. apply lookup_union_None. split; assumption. }
  unfold run_script, module_body. rewrite bind_run.
  assert (all opt_truthy
            [load_dotenv dotenv environ !! "GEMINI_API_KEY";
             load_dotenv dotenv environ !! "LINE_CHANNEL_ACCESS_TOKEN";
             load_dotenv dotenv environ !! "LINE_USER_ID"] = false) as Hall.
  { unfold required_secrets in Hkey. cbn [In] in Hkey. unfold all. cbn [forallb].
    destruct Hkey as [<- | [<- | [<- | []]]]; rewrite Hnone; cbn [opt_truthy];
      rewrite ?andb_false_r; reflexivity. }
  cbv zeta. rewrite Hall. reflexivity.
Qed.

(** ** The theorems at sample inputs *)

Lemma generate_summary_first_success_witness :
  [item_of Sample.geopolitics Sample.fusion] <> [] /\
  candidate_models = ["gemini-1.5-pro-002"] ++ "gemini-flash-latest" :: [] /\
  Forall (model_fails Sample.client_fallback
            (prompt_of [item_of Sample.geopolitics Sample.fusion] Sample.target_date))
         ["gemini-1.5-pro-002"] /\
  exists evs,
    generate_summary (R:=unit) Sample.client_fallback
      [item_of Sample.geopolitics Sample.fusion] Sample.target_date [] =
    (Normal (Some "Report body"), [] ++ evs) /\
    models_called evs = ["gemini-1.5-pro-002"] ++ ["gemini-flash-latest"].
Proof.
  assert ([item_of Sample.geopolitics Sample.fusion] <> []) as Hne by discriminate.
  assert (candidate_models = ["gemini-1.5-pro-002"] ++ "gemini-flash-latest" :: [])
    as Hsplit by reflexivity.
  assert (Forall (model_fails Sample.client_fallback
                    (prompt_of [item_of Sample.geopolitics Sample.fusion] Sample.target_date))
                 ["gemini-1.5-pro-002"]) as Hpre
    by (repeat constructor; exists "quota"; reflexivity).
  split; [exact Hne|]. split; [exact Hsplit|]. split; [exact Hpre|].
  exact (generate_summary_first_success (R:=unit) Sample.client_fallback
           [item_of Sample.geopolitics Sample.fusion] Sample.target_date []
           ["gemini-1.5-pro-002"] "gemini-flash-latest" [] {| text := Some "Report body" |}
           Hne Hsplit Hpre eq_refl).
Defined.

Lemma main_empty_summary_not_published_witness :
  exists news tr1 tr2,
    search_news (R:=unit) (inr Sample.ddgs_ok) Sample.target_date
      max_results_per_keyword_default main_prologue = (Normal news, tr1) /\
    news <> [] /\
    generate_summary (R:=unit) Sample.client_empty news Sample.target_date tr1 =
    (Normal (Some ""), tr2) /\
    main (R:=unit) (inr Sample.ddgs_ok) Sample.client_empty Sample.sdk_down
      (Some "token") (Some "user") Sample.target_date [] = (Normal tt, tr2) /\
    never (is_call "send_line_push") tr2 /\
    never is_print tr2.
Proof.
  eexists _, _, _.
  split; [vm_compute; reflexivity|].
  split; [discriminate|].
  split; [vm_compute; reflexivity|].
  eapply (main_empty_summary_not_published (inr Sample.ddgs_ok) Sample.client_empty
           Sample.sdk_down (Some "token") (Some "user") Sample.target_date).
  - vm_compute. reflexivity.
  - discriminate.
  - vm_compute. reflexivity.
Defined.

Lemma missing_secret_exits_witness :
  In "LINE_USER_ID" required_secrets /\
  Sample.environ_no_user !! "LINE_USER_ID" = None /\
  (∅ : gmap string string) !! "LINE_USER_ID" = None /\
  run_script (inr Sample.ddgs_ok) (fun _ => inr Sample.client_fallback) Sample.sdk_down
    Sample.target_date ∅ Sample.environ_no_user =
  (1, [Log ERROR missing_msg]).
Proof.
  assert (In "LINE_USER_ID" required_secrets) as Hkey by (vm_compute; tauto).
  assert (Sample.environ_no_user !! "LINE_USER_ID" = None) as Henv by (vm_compute; reflexivity).
  assert ((∅ : gmap string string) !! "LINE_USER_ID" = None) as Hdot by (vm_compute; reflexivity).
  split; [exact Hkey|]. split; [exact Henv|]. split; [exact Hdot|].
  exact (missing_secret_exits (inr Sample.ddgs_ok) (fun _ => inr Sample.client_fallback)
           Sample.sdk_down Sample.target_date ∅ Sample.environ_no_user "LINE_USER_ID"
           Hkey Henv Hdot).
Defined.

(** The end-to-end run of the specification: some news, the first candidate
    fails, the second answers "Report body"; the publisher is called once,
    with that text. *)
Example main_report_body :
  exists tr,
    main (R:=unit) (inr Sample.ddgs_ok) Sample.client_fallback Sample.sdk_down
      (Some "token") (Some "user") Sample.target_date [] = (Normal tt, tr) /\
    List.filter (fun ev => match ev with PushMessage _ _ => true | _ => false end) tr =
    [PushMessage {| access_token := Some "token" |}
                 (push_request (Some "user") "Report body")] /\
    List.filter (fun ev => match ev with Call "send_line_push" => true | _ => false end) tr =
    [Call "send_line_push"].
Proof. eexists. split; [vm_compute; reflexivity|]. split; vm_compute; reflexivity. Qed.

(** The round trip of the specification: of a fusion headline and a
    Taylor Swift headline, only the first becomes a block. *)
Example blocklist_round_trip :
  for_gen (R:=unit) (GenYield Sample.fusion (GenYield Sample.tour GenStop)) ([], 0)
    (search_hit 3 Sample.geopolitics) [] =
  (Normal ([item_of Sample.geopolitics Sample.fusion], 1), []).
Proof. vm_compute. reflexivity. Qed.

(** * Further properties of the pipeline *)

(** ** The inner loop on sequences that deliver lists *)

Section InnerLoopLists.

Context {R : Type}.
Variable cap : Z.
Variable query : string.

(** One turn of the inner loop, the filter as one test. *)
Lemma for_gen_yield_b r rest results count tr :
  for_gen (R:=R) (GenYield r rest) (results, count) (search_hit cap query) tr =
  if count >=? cap then (Normal (results, count), tr)
  else if acceptable_b r
       then for_gen rest (results ++ [item_of query r], count + 1) (search_hit cap query) tr
       else for_gen rest (results, count) (search_hit cap query) tr.
Proof.
  rewrite for_gen_yield. unfold acceptable_b.
  destruct (count >=? cap); [reflexivity|].
  destruct (any _ block_list); [reflexivity|].
  destruct (Str.truthy _ && Str.truthy _); reflexivity.
Qed.

Lemma kept_nonpositive room hits : room <= 0 -> kept room hits = [].
Proof.
  intros H. unfold kept. replace (Z.to_nat room) with O by lia. reflexivity.
Qed.

Lemma kept_cons_accept room r hits :
  0 < room -> acceptable_b r = true ->
  kept room (r :: hits) = r :: kept (room - 1) hits.
Proof.
  intros Hroom Hr. unfold kept. cbn [List.filter]. rewrite Hr.
  replace (Z.to_nat room) with (S (Z.to_nat (room - 1))) by lia. reflexivity.
Qed.

Lemma kept_cons_reject room r hits :
  acceptable_b r = false -> kept room (r :: hits) = kept room hits.
Proof. intros Hr. unfold kept. cbn [List.filter]. now rewrite Hr. Qed.

(** A sequence that yields a list and ends: the loop keeps the first hits
    that pass the filter, as many as the cap leaves room for, in order. *)
Lemma for_gen_of_list hits : forall results count tr,
  for_gen (R:=R) (gen_of_list hits) (results, count) (search_hit cap query) tr =
  (Normal (results ++ map (item_of query) (kept (cap - count) hits),
           count + Z.of_nat (length (kept (cap - count) hits))), tr).
Proof.
  unfold gen_of_list.
  induction hits as [|r hits IH]; intros results count tr.
  - cbn [gen_app fold_right for_gen]. unfold kept. cbn [List.filter].
    rewrite take_nil. cbn [map length]. rewrite app_nil_r, Z.add_0_r. reflexivity.
  - cbn [gen_app fold_right]. fold (gen_app hits GenStop). rewrite for_gen_yield_b.
    destruct (count >=? cap) eqn:Hcap.
    + rewrite kept_nonpositive by lia. cbn [map length].
      rewrite app_nil_r, Z.add_0_r. reflexivity.
    + destruct (acceptable_b r) eqn:Hr.
      * rewrite IH, (kept_cons_accept (cap - count)) by (assumption || lia).
        replace (cap - (count + 1)) with (cap - count - 1) by lia.
        cbn [map length]. rewrite <- app_assoc, Nat2Z.inj_succ. cbn [app].
        match goal with
        | |- context [count + 1 + ?z] =>
            replace (count + 1 + z) with (count + Z.succ z) by lia
        end.
        reflexivity.
      * rewrite IH, kept_cons_reject by assumption. reflexivity.
Qed.

(** A sequence that has yielded enough and yields one more item: the loop
    breaks on an item it has pulled, and what follows is never asked for. *)
Lemma for_gen_enough hits r0 rest : forall results count tr,
  cap - count <= Z.of_nat (length (List.filter acceptable_b hits)) ->
  for_gen (R:=R) (gen_app hits (GenYield r0 rest)) (results, count)
    (search_hit cap query) tr =
  (Normal (results ++ map (item_of query) (kept (cap - count) hits),
           count + Z.of_nat (length (kept (cap - count) hits))), tr).
Proof.
  induction hits as [|r hits IH]; intros results count tr Hroom.
  - cbn [List.filter length] in Hroom. cbn [gen_app fold_right].
    rewrite for_gen_yield_b.
    replace (count >=? cap) with true by lia.
    rewrite kept_nonpositive by lia. cbn [map length].
    rewrite app_nil_r, Z.add_0_r. reflexivity.
  - cbn [gen_app fold_right]. fold (gen_app hits (GenYield r0 rest)).
    rewrite for_gen_yield_b.
    destruct (count >=? cap) eqn:Hcap.
    + rewrite kept_nonpositive by lia. cbn [map length].
      rewrite app_nil_r, Z.add_0_r. reflexivity.
    + cbn [List.filter] in Hroom. destruct (acceptable_b r) eqn:Hr.
      * cbn [length] in Hroom.
        rewrite IH, (kept_cons_accept (cap - count)) by (assumption || lia).
        replace (cap - (count + 1)) with (cap - count - 1) by lia.
        cbn [map length]. rewrite <- app_assoc, Nat2Z.inj_succ. cbn [app].
        match goal with
        | |- context [count + 1 + ?z] =>
            replace (count + 1 + z) with (count + Z.succ z) by lia
        end.
        reflexivity.
      * rewrite IH, kept_cons_reject by assumption. reflexivity.
Qed.

(** Hits that all pass the filter and fit under the cap are all kept, and
    the loop goes on to pull from what follows them, also when they have
    filled the cap. *)
Lemma for_gen_all_kept hits gen : forall results count tr,
  forallb acceptable_b hits = true ->
  count + Z.of_nat (length hits) <= cap ->
  for_gen (R:=R) (gen_app hits gen) (results, count) (search_hit cap query) tr =
  for_gen (R:=R) gen (results ++ map (item_of query) hits, count + Z.of_nat (length hits))
    (search_hit cap query) tr.
Proof.
  induction hits as [|r hits IH]; intros results count tr Hall Hfit.
  - cbn [gen_app fold_right map length]. now rewrite app_nil_r, Z.add_0_r.
  - cbn [forallb] in Hall. apply andb_true_iff in Hall as [Hr Hall].
    cbn [length] in Hfit.
    cbn [gen_app fold_right]. fold (gen_app hits gen). rewrite for_gen_yield_b, Hr.
    replace (count >=? cap) with false by lia.
    rewrite IH by (assumption || lia).
    cbn [map length]. rewrite <- app_assoc, Nat2Z.inj_succ. cbn [app].
    replace (count + 1 + Z.of_nat (length hits))
      with (count + Z.succ (Z.of_nat (length hits))) by lia.
    reflexivity.
Qed.

(** A sequence that delivers [hits]: the loop, started at its beginning,
    keeps the first [cap] of them that pass the filter. *)
Lemma for_gen_delivers gen hits results tr :
  delivers cap gen hits ->
  exists count,
    for_gen (R:=R) gen (results, 0) (search_hit cap query) tr =
    (Normal (results ++ map (item_of query) (kept cap hits), count), tr).
Proof.
  intros [-> | [Hroom [r0 [rest ->]]]]; eexists.
  - rewrite for_gen_of_list, Z.sub_0_r. reflexivity.
  - rewrite for_gen_enough, Z.sub_0_r by lia. reflexivity.
Qed.

End InnerLoopLists.

(** ** The outer loop on providers that deliver lists *)

Section OuterLoopLists.

Context {R : Type}.
Variable cap : Z.
Variable ddgs : DDGS.
Variable hits_of : string -> list SearchResult.

Lemma search_query_delivers query results tr :
  delivers cap (news ddgs query "wt-wt" "Off" "d") (hits_of query) ->
  search_query (R:=R) ddgs cap query results tr =
  (Normal (Next (results ++ map (item_of query) (kept cap (hits_of query)))),
   tr ++ query_events query).
Proof.
  intros Hd. unfold search_query, logger_info, emit, bind.
  destruct (for_gen_delivers (R:=R) cap query _ _ results
              ((tr ++ [Log INFO ("   正在搜尋分類: " +:+ query +:+ " ...")])
                 ++ [DdgsNews query "wt-wt" "Off" "d"]) Hd) as [count Hrun].
  rewrite Hrun. unfold query_events. rewrite <- app_assoc. reflexivity.
Qed.

(** The queries whose sequences deliver their lists are passed one after
    the other; the loop goes on with the rest. *)
Lemma for_each_delivers rest : forall pre results tr,
  (forall query, In query pre ->
     delivers cap (news ddgs query "wt-wt" "Off" "d") (hits_of query)) ->
  for_each (R:=R) (pre ++ rest) results (search_query ddgs cap) tr =
  for_each (R:=R) rest (results ++ blocks_for cap hits_of pre) (search_query ddgs cap)
    (tr ++ concat (map query_events pre)).
Proof.
  induction pre as [|query pre IH]; intros results tr Hpre.
  - cbn [app map concat]. unfold blocks_for. cbn [map concat].
    now rewrite !app_nil_r.
  - cbn [app]. rewrite for_each_cons, search_query_delivers by (apply Hpre; now left).
    rewrite IH by (intros q Hq; apply Hpre; now right).
    unfold blocks_for. cbn [map concat]. now rewrite <- !app_assoc.
Qed.

End OuterLoopLists.

(** ** Searcher: what it returns on providers that deliver lists *)

(** X1.  When for each of the three queries the session's sequence delivers
    a list of hits (it yields them and ends, or they hold at least [cap]
    hits that pass the filter and at least one more item follows, whatever
    comes after), [search_news] returns, query by query in the fixed order,
    the blocks of the first [cap] hits that pass the filter, in the order
    the provider gave them; hits that fail the filter use up none of the
    cap.  Its trace is the call, the start line, the session with the three
    queries, and the closing line. *)
Theorem search_news_on_lists {R} ddgs hits_of target_date cap tr :
  (forall query, In query keywords ->
     delivers cap (news ddgs query "wt-wt" "Off" "d") (hits_of query)) ->
  search_news (R:=R) (inr ddgs) target_date cap tr =
  (Normal (blocks_for cap hits_of keywords),
   tr ++ [Call "search_news"; Log INFO (search_start_msg target_date); Enter DDGS_session]
      ++ concat (map query_events keywords)
      ++ [Exit DDGS_session; Log INFO (search_done_msg (blocks_for cap hits_of keywords))]).
Proof.
  intros Hd. rewrite search_news_run. unfold search_news_try, with_.
  rewrite <- (app_nil_r keywords) at 1.
  rewrite (for_each_delivers (R:=list string) cap ddgs hits_of [] keywords) by exact Hd.
  cbn [for_each]. unfold ret. cbn [app].
  rewrite <- !app_assoc. reflexivity.
Qed.

Lemma search_news_on_lists_witness :
  (forall query, In query keywords ->
     delivers 3 (news Sample.ddgs_late_failure query "wt-wt" "Off" "d")
       (Sample.hits_late_failure query)) /\
  search_news (R:=unit) (inr Sample.ddgs_late_failure) Sample.target_date 3 [] =
  (Normal (blocks_for 3 Sample.hits_late_failure keywords),
   [] ++ [Call "search_news"; Log INFO (search_start_msg Sample.target_date);
          Enter DDGS_session]
      ++ concat (map query_events keywords)
      ++ [Exit DDGS_session;
          Log INFO (search_done_msg (blocks_for 3 Sample.hits_late_failure keywords))]).
Proof.
  assert (forall query, In query keywords ->
            delivers 3 (news Sample.ddgs_late_failure query "wt-wt" "Off" "d")
              (Sample.hits_late_failure query)) as Hd.
  { unfold keywords. cbn [In]. intros query [<- | [<- | [<- | []]]].
    - right. split; [vm_compute; discriminate|].
      exists Sample.tour, (GenRaise "late"). reflexivity.
    - left. reflexivity.
    - left. reflexivity. }
  split; [exact Hd|].
  exact (search_news_on_lists (R:=unit) Sample.ddgs_late_failure Sample.hits_late_failure
           Sample.target_date 3 [] Hd).
Defined.

(** X2.  Reaching the cap does not end the pulling: when the queries before
    [query] deliver their lists and the sequence for [query] yields hits
    that all pass the filter, no more of them than the cap, and raises on
    the next pull, [search_news] returns the empty list, the blocks already
    appended are dropped, and the queries after [query] are never issued. *)
Theorem search_news_raise_on_next_pull {R} ddgs hits_of target_date cap tr
    pre query post hits e :
  keywords = pre ++ query :: post ->
  (forall query', In query' pre ->
     delivers cap (news ddgs query' "wt-wt" "Off" "d") (hits_of query')) ->
  news ddgs query "wt-wt" "Off" "d" = gen_app hits (GenRaise e) ->
  forallb acceptable_b hits = true ->
  Z.of_nat (length hits) <= cap ->
  search_news (R:=R) (inr ddgs) target_date cap tr =
  (Normal [],
   tr ++ [Call "search_news"; Log INFO (search_start_msg target_date); Enter DDGS_session]
      ++ concat (map query_events pre) ++ query_events query
      ++ [Exit DDGS_session; Log ERROR (search_error_msg e)]).
Proof.
  intros Hsplit Hpre Hgen Hall Hfit. rewrite search_news_run.
  unfold search_news_try, with_. rewrite Hsplit.
  rewrite (for_each_delivers (R:=list string) cap ddgs hits_of (query :: post) pre)
    by exact Hpre.
  rewrite for_each_cons. unfold search_query, logger_info, emit, bind.
  rewrite Hgen, for_gen_all_kept by (assumption || lia).
  cbn [for_gen]. unfold raise. unfold query_events.
  rewrite <- !app_assoc. reflexivity.
Qed.

Lemma search_news_raise_on_next_pull_witness :
  keywords = [] ++ Sample.geopolitics :: [
    "Global Economic Impact -stock -crypto";
    "Scientific Research Breakthroughs AI Space -movie -fiction"] /\
  news Sample.ddgs_fails_at_cap Sample.geopolitics "wt-wt" "Off" "d" =
  gen_app [Sample.fusion; Sample.summit; Sample.summit] (GenRaise "timeout") /\
  forallb acceptable_b [Sample.fusion; Sample.summit; Sample.summit] = true /\
  Z.of_nat (length [Sample.fusion; Sample.summit; Sample.summit]) <= 3 /\
  search_news (R:=unit) (inr Sample.ddgs_fails_at_cap) Sample.target_date 3 [] =
  (Normal [],
   [] ++ [Call "search_news"; Log INFO (search_start_msg Sample.target_date);
          Enter DDGS_session]
      ++ concat (map query_events []) ++ query_events Sample.geopolitics
      ++ [Exit DDGS_session; Log ERROR (search_error_msg "timeout")]).
Proof.
  assert (keywords = [] ++ Sample.geopolitics :: [
            "Global Economic Impact -stock -crypto";
            "Scientific Research Breakthroughs AI Space -movie -fiction"]) as Hsplit
    by reflexivity.
  assert (news Sample.ddgs_fails_at_cap Sample.geopolitics "wt-wt" "Off" "d" =
          gen_app [Sample.fusion; Sample.summit; Sample.summit] (GenRaise "timeout")) as Hgen
    by reflexivity.
  assert (forallb acceptable_b [Sample.fusion; Sample.summit; Sample.summit] = true) as Hall
    by (vm_compute; reflexivity).
  assert (Z.of_nat (length [Sample.fusion; Sample.summit; Sample.summit]) <= 3) as Hfit
    by (vm_compute; discriminate).
  split; [exact Hsplit|]. split; [exact Hgen|]. split; [exact Hall|]. split; [exact Hfit|].
  refine (search_news_raise_on_next_pull (R:=unit) Sample.ddgs_fails_at_cap (fun _ => [])
            Sample.target_date 3 [] [] Sample.geopolitics _ _ "timeout"
            Hsplit _ Hgen Hall Hfit).
  intros query' [].
Defined.

(** ** Searcher: what it asks of the provider, whatever the provider does *)

Lemma session_view_app evs1 evs2 :
  session_view (evs1 ++ evs2) = session_view evs1 ++ session_view evs2.
Proof. unfold session_view. apply List.filter_app. Qed.

(** The outer loop on any provider: the queries issued are the first [n] of
    the list, in order, with the fixed options; all of them unless the loop
    ends in an exception, and at least one then. *)
Lemma for_each_session_view {R} ddgs cap queries : forall results tr,
  exists o evs n,
    for_each (R:=R) queries results (search_query ddgs cap) tr = (o, tr ++ evs) /\
    session_view evs = map (fun q => DdgsNews q "wt-wt" "Off" "d") (take n queries) /\
    (n <= length queries)%nat /\
    ((exists r, o = Normal r) /\ n = length queries \/
     (exists e, o = Raised e) /\ (1 <= n)%nat).
Proof.
  induction queries as [|query queries IH]; intros results tr.
  - exists (Normal results), [], O. cbn [for_each]. unfold ret. rewrite app_nil_r.
    repeat split; [lia|]. left. split; [now exists results | reflexivity].
  - rewrite for_each_cons.
    destruct (search_query_spec (R:=R) cap ddgs query results tr)
      as [[e [_ He]] | [acc [_ Hrun]]].
    + rewrite He. exists (Raised e), (query_events query), 1%nat.
      split; [unfold query_events; now rewrite <- app_assoc|].
      split; [reflexivity|]. split; [cbn [length]; lia|].
      right. split; [now exists e | lia].
    + rewrite Hrun.
      destruct (IH (results ++ blocks_of (query, acc))
                  ((tr ++ [Log INFO ("   正在搜尋分類: " +:+ query +:+ " ...")])
                     ++ [DdgsNews query "wt-wt" "Off" "d"]))
        as [o [evs [n [Hrest [Hview [Hn Hcase]]]]]].
      exists o, (query_events query ++ evs), (S n).
      split; [rewrite Hrest; unfold query_events; now rewrite <- !app_assoc|].
      split; [rewrite session_view_app, Hview; reflexivity|].
      split; [cbn [length]; lia|].
      destruct Hcase as [[Ho ->] | [Ho Hge]]; [left | right];
        (split; [exact Ho | cbn [length]; lia]).
Qed.

(** X3.  Whatever the provider does, [search_news] returns, and its dealings
    with the provider are these: if constructing the session raises, none at
    all; otherwise one session, inside it the first [n >= 1] of the three
    queries in their fixed order, each with region [wt-wt], safe search
    [Off] and time limit [d], and the session is closed after the last of
    them.  If fewer than the three queries were issued, the result is the
    empty list. *)
Theorem search_news_session {R} DDGS_new target_date cap tr :
  exists blocks evs,
    search_news (R:=R) DDGS_new target_date cap tr = (Normal blocks, tr ++ evs) /\
    match DDGS_new with
    | inl _ => session_view evs = [] /\ blocks = []
    | inr _ =>
        exists n,
          (1 <= n <= length keywords)%nat /\
          session_view evs =
          Enter DDGS_session ::
            map (fun q => DdgsNews q "wt-wt" "Off" "d") (take n keywords)
            ++ [Exit DDGS_session] /\
          (n < length keywords -> blocks = [])%nat
    end.
Proof.
  rewrite search_news_run. unfold search_news_try, with_.
  destruct DDGS_new as [e | ddgs].
  - unfold raise. eexists [], _. rewrite <- !app_assoc. split; [reflexivity|].
    split; reflexivity.
  - destruct (for_each_session_view (R:=list string) ddgs cap keywords []
                (((tr ++ [Call "search_news"]) ++ [Log INFO (search_start_msg target_date)])
                   ++ [Enter DDGS_session]))
      as [o [evs [n [Hrun [Hview [Hn Hcase]]]]]].
    rewrite Hrun.
    destruct Hcase as [[[results ->] ->] | [[e ->] Hge]].
    + eexists results, _. rewrite <- !app_assoc. split; [reflexivity|].
      exists (length keywords). split; [cbn; lia|]. split; [|lia].
      cbn [app]. unfold session_view. cbn [List.filter]. rewrite List.filter_app.
      fold (session_view evs). rewrite Hview. reflexivity.
    + eexists [], _. rewrite <- !app_assoc. split; [reflexivity|].
      exists n. split; [lia|]. split; [|reflexivity].
      cbn [app]. unfold session_view. cbn [List.filter]. rewrite List.filter_app.
      fold (session_view evs). rewrite Hview. reflexivity.
Qed.

(** X4.  Whatever the provider does and whatever the cap, [search_news]
    returns at most [max 0 cap] blocks per query, hence at most three times
    that in all (nine with the default cap). *)
Theorem search_news_total_bound {R} DDGS_new target_date cap tr :
  exists blocks tr',
    search_news (R:=R) DDGS_new target_date cap tr = (Normal blocks, tr') /\
    Z.of_nat (length blocks) <= Z.of_nat (length keywords) * Z.max 0 cap.
Proof.
  destruct (search_news_spec (R:=R) DDGS_new target_date cap tr)
    as [groups [tr' [Hrun [_ Hgroups]]]].
  exists (concat (map blocks_of groups)), tr'. split; [exact Hrun|].
  destruct Hgroups as [-> | [ddgs [_ [Hq Hok]]]]; [cbn; lia|].
  rewrite <- Hq, length_map. clear Hq Hrun.
  induction Hok as [|[query acc] groups [Hlen _] _ IH]; [cbn; lia|].
  cbn [map concat length]. rewrite length_app.
  unfold blocks_of at 1. rewrite length_map. cbn [snd] in *. lia.
Qed.

(** X5.  Every block [search_news] returns was formatted from a hit that has
    a [title] key and a [url] key, both with a non-empty value: a hit that
    lacks either key, or has it empty, is never returned.  The [body] key is
    not asked for. *)
Theorem search_news_needs_title_and_url {R} DDGS_new target_date cap tr :
  exists accepted tr',
    search_news (R:=R) DDGS_new target_date cap tr =
    (Normal (map (fun qr => item_of (fst qr) (snd qr)) accepted), tr') /\
    Forall (fun qr =>
              exists title url,
                snd qr !! "title" = Some title /\ title <> "" /\
                snd qr !! "url" = Some url /\ url <> "")
           accepted.
Proof.
  destruct (search_news_spec (R:=R) DDGS_new target_date cap tr)
    as [groups [tr' [Hrun [_ Hgroups]]]].
  exists (flatten_groups groups), tr'. rewrite <- flatten_groups_blocks.
  split; [exact Hrun|].
  destruct Hgroups as [-> | [ddgs [_ [_ Hok]]]]; [constructor|].
  eapply Forall_impl.
  - apply (flatten_groups_ok ddgs cap (fun _ => True) groups Hok).
    apply List.Forall_forall. auto.
  - intros [query r] [_ [_ [_ [Ht Hu]]]]. cbn [fst snd] in *.
    unfold dict_get in Ht, Hu.
    destruct (r !! "title") as [title|]; [|congruence].
    destruct (r !! "url") as [url|]; [|congruence].
    exists title, url. repeat split; assumption.
Qed.

(** ** Statements only append to the trace *)

Lemma framed_ret {R A} (a : A) : framed (ret (R:=R) a).
Proof. intros tr. unfold ret. cbn. now rewrite app_nil_r. Qed.

Lemma framed_return {R A} (r : R) : framed (return_ (A:=A) r).
Proof. intros tr. unfold return_. cbn. now rewrite app_nil_r. Qed.

Lemma framed_raise {R A} (e : exn) : framed (raise (R:=R) (A:=A) e).
Proof. intros tr. unfold raise. cbn. now rewrite app_nil_r. Qed.

Lemma framed_emit {R} (ev : event) : framed (emit (R:=R) ev).
Proof. intros tr. reflexivity. Qed.

Lemma framed_bind {R A B} (m : M R A) (k : A -> M R B) :
  framed m -> (forall a, framed (k a)) -> framed (bind m k).
Proof.
  intros Hm Hk tr. unfold bind. rewrite (Hm tr).
  destruct (m []) as [[a|r|e|c] evs]; cbn [fst snd]; try reflexivity.
  rewrite (Hk a (tr ++ evs)), (Hk a evs). cbn [fst snd]. now rewrite app_assoc.
Qed.

Lemma framed_try_except {R A} (body : M R A) (handler : exn -> M R A) :
  framed body -> (forall e, framed (handler e)) -> framed (try_except body handler).
Proof.
  intros Hb Hh tr. unfold try_except. rewrite (Hb tr).
  destruct (body []) as [[a|r|e|c] evs]; cbn [fst snd]; try reflexivity.
  rewrite (Hh e (tr ++ evs)), (Hh e evs). cbn [fst snd]. now rewrite app_assoc.
Qed.

Lemma framed_with {R A X} (res : resource) (ctor : exn + X) (body : X -> M R A) :
  (forall x, framed (body x)) -> framed (with_ res ctor body).
Proof.
  intros Hb. unfold with_. destruct ctor as [e | x]; [apply framed_raise|].
  intros tr. rewrite (Hb x (tr ++ [Enter res])), (Hb x ([] ++ [Enter res])).
  cbn [fst snd app]. now rewrite <- !app_assoc.
Qed.

Lemma framed_call {R R'} fn (body : M R R) :
  framed body -> framed (call (R':=R') fn body).
Proof.
  intros Hb tr. unfold call. rewrite (Hb (tr ++ [Call fn])), (Hb ([] ++ [Call fn])).
  destruct (body []) as [[r|r|e|c] evs]; cbn [fst snd app]; now rewrite <- app_assoc.
Qed.

Lemma framed_for_each {R X S} (xs : list X) (body : X -> S -> M R (ctl S)) :
  (forall x s, framed (body x s)) -> forall s, framed (for_each xs s body).
Proof.
  intros Hb. induction xs as [|x xs IH]; intros s; [apply framed_ret|].
  cbn [for_each]. apply framed_bind; [apply Hb|].
  intros [s'|s']; [apply IH | apply framed_ret].
Qed.

Lemma framed_for_gen {R S} (gen : news_gen) (body : SearchResult -> S -> M R (ctl S)) :
  (forall r s, framed (body r s)) -> forall s, framed (for_gen gen s body).
Proof.
  intros Hb. induction gen as [|r rest IH|e]; intros s;
    [apply framed_ret | | apply framed_raise].
  cbn [for_gen]. apply framed_bind; [apply Hb|].
  intros [s'|s']; [apply IH | apply framed_ret].
Qed.

Lemma framed_search_hit {R} cap query r s : framed (search_hit (R:=R) cap query r s).
Proof.
  destruct s as [results count]. intros tr. rewrite !search_hit_cases.
  cbn [fst snd]. now rewrite app_nil_r.
Qed.

Lemma framed_search_news_try {R} DDGS_new cap results :
  framed (search_news_try (R:=R) DDGS_new cap results).
Proof.
  unfold search_news_try. apply framed_with. intros ddgs.
  apply framed_for_each. intros query res. unfold search_query.
  apply framed_bind; [apply framed_emit|]. intros _.
  apply framed_bind; [apply framed_emit|]. intros _.
  apply framed_bind; [|intros s; apply framed_ret].
  apply framed_for_gen. intros r s. apply framed_search_hit.
Qed.

(** X6.  The date handed to [search_news] appears in its first log line and
    nowhere else: the queries issued, everything else the run does, and the
    list returned are the same for every date. *)
Theorem search_news_ignores_date {R} DDGS_new cap tr :
  exists blocks evs,
    forall target_date,
      search_news (R:=R) DDGS_new target_date cap tr =
      (Normal blocks,
       tr ++ [Call "search_news"; Log INFO (search_start_msg target_date)] ++ evs).
Proof.
  pose proof (framed_search_news_try (R:=list string) DDGS_new cap []) as Hframed.
  destruct (search_news_try (R:=list string) DDGS_new cap [] []) as [o evs] eqn:Hnil.
  assert (forall target_date,
            search_news_try (R:=list string) DDGS_new cap []
              ((tr ++ [Call "search_news"]) ++ [Log INFO (search_start_msg target_date)]) =
            (o, tr ++ [Call "search_news"; Log INFO (search_start_msg target_date)] ++ evs))
    as Hrun.
  { intros target_date. rewrite Hframed, Hnil. cbn [fst snd app].
    now rewrite <- !app_assoc. }
  assert ((exists results, o = Normal results) \/ (exists e, o = Raised e)) as Ho.
  { destruct (search_news_try_spec (R:=list string) cap DDGS_new [] [])
      as [[e [tr' [He _]]] | [ddgs [groups [tr' [_ [_ [_ [_ Hok]]]]]]]].
    - right. exists e. congruence.
    - left. eexists. rewrite Hok in Hnil. now injection Hnil as <- _. }
  destruct Ho as [[results ->] | [e ->]].
  - exists results, (evs ++ [Log INFO (search_done_msg results)]).
    intros target_date. rewrite search_news_run, Hrun.
    cbn [app]. now rewrite <- !app_assoc.
  - exists [], (evs ++ [Log ERROR (search_error_msg e)]).
    intros target_date. rewrite search_news_run, Hrun.
    cbn [app]. now rewrite <- !app_assoc.
Qed.

(** ** Summarizer: its calls and its prompt *)

Lemma generation_calls_app evs1 evs2 :
  generation_calls (evs1 ++ evs2) = generation_calls evs1 ++ generation_calls evs2.
Proof.
  induction evs1 as [|ev evs1 IH]; [reflexivity|].
  destruct ev; cbn [app generation_calls]; rewrite IH; reflexivity.
Qed.

(** The loop over any list of candidates: the generation calls are those for
    the first [n] candidates, in order, all with the one prompt and the fixed
    configuration; all candidates when the loop falls through, which it does
    only when all fail, and at least one when it returns a text. *)
Lemma for_each_try_model_calls client prompt models : forall tr,
  exists o evs n,
    for_each models tt (try_model client prompt) tr = (o, tr ++ evs) /\
    generation_calls evs =
    map (fun model => (model, prompt, generation_config)) (take n models) /\
    (n <= length models)%nat /\
    (o = Normal tt /\ n = length models \/
     (exists model response,
        In model models /\ client model prompt generation_config = inr response /\
        o = Returned (text response)) /\ (1 <= n)%nat).
Proof.
  induction models as [|model models IH]; intros tr.
  - exists (Normal tt), [], O. cbn [for_each]. unfold ret. rewrite app_nil_r.
    repeat split; [lia|]. now left.
  - rewrite for_each_cons, try_model_run.
    destruct (client model prompt generation_config) as [e | response] eqn:Hcall.
    + destruct (IH (tr ++ failure_events prompt model e))
        as [o [evs [n [Hrun [Hcalls [Hn Hcase]]]]]].
      exists o, (failure_events prompt model e ++ evs), (S n).
      split; [now rewrite Hrun, app_assoc|].
      split; [rewrite generation_calls_app, Hcalls; reflexivity|].
      split; [cbn [length]; lia|].
      destruct Hcase as [[-> ->] | [[m [response [Hin [Hm Ho]]]] Hge]].
      * left. split; [reflexivity | cbn [length]; lia].
      * right. split; [|lia]. exists m, response. split; [now right | now split].
    + exists (Returned (text response)), (success_events prompt model), 1%nat.
      split; [reflexivity|]. split; [reflexivity|]. split; [cbn [length]; lia|].
      right. split; [|lia]. exists model, response. split; [now left | now split].
Qed.

(** X7.  The generation calls of [generate_summary] are those for the first
    [n] candidates of the ordered list, in order, every one with the same
    prompt and the configuration of temperature 3/10: none when the list of
    items is empty, at least one otherwise, and all of them (two) when
    every candidate's call fails.  It never makes a call beyond the list. *)
Theorem generate_summary_calls {R} client news_list target_date tr :
  exists result evs n,
    generate_summary (R:=R) client news_list target_date tr = (Normal result, tr ++ evs) /\
    generation_calls evs =
    map (fun model => (model, prompt_of news_list target_date, generation_config))
        (take n candidate_models) /\
    (n <= length candidate_models)%nat /\
    (news_list = [] -> n = O) /\
    (news_list <> [] -> (1 <= n)%nat) /\
    (news_list <> [] ->
     Forall (model_fails client (prompt_of news_list target_date)) candidate_models ->
     n = length candidate_models).
Proof.
  rewrite generate_summary_run.
  destruct news_list as [|item news_list].
  { exists None, [Call "generate_summary"], O.
    repeat split; try reflexivity; try congruence. cbn; lia. }
  destruct (for_each_try_model_calls client (prompt_of (item :: news_list) target_date)
              candidate_models
              ((tr ++ [Call "generate_summary"]) ++ [Log INFO thinking_msg]))
    as [o [evs [n [Hrun [Hcalls [Hn Hcase]]]]]].
  rewrite Hrun.
  destruct Hcase as [[-> ->] | [[m [response [Hin [Hm ->]]]] Hge]].
  - eexists None, _, (length candidate_models).
    rewrite <- !app_assoc. split; [reflexivity|].
    split; [|repeat split; try congruence; cbn; lia].
    cbn [app generation_calls]. rewrite generation_calls_app, Hcalls.
    cbn [generation_calls]. now rewrite app_nil_r.
  - eexists (text response), _, n.
    rewrite <- !app_assoc. split; [reflexivity|].
    split; [cbn [app generation_calls]; exact Hcalls|].
    split; [lia|]. split; [congruence|]. split; [intros _; lia|].
    intros _ Hall. apply List.Forall_forall with (x := m) in Hall; [|exact Hin].
    destruct Hall as [e He]. congruence.
Qed.

Lemma str_append_assoc (s t u : string) : (s +:+ t) +:+ u = s +:+ (t +:+ u).
Proof.
  induction s as [|c s IH]; [reflexivity|].
  rewrite !append_cons, IH. reflexivity.
Qed.

Lemma str_append_nil_r (s : string) : s +:+ "" = s.
Proof.
  induction s as [|c s IH]; [reflexivity|]. rewrite append_cons, IH. reflexivity.
Qed.

Lemma occurs_in_refl (s : string) : Str.occurs_in s s.
Proof. exists "", "". now rewrite str_append_nil_r. Qed.

Lemma occurs_in_append_r (x s t : string) :
  Str.occurs_in x t -> Str.occurs_in x (s +:+ t).
Proof.
  intros [pre [post ->]]. exists (s +:+ pre), post. now rewrite str_append_assoc.
Qed.

Lemma occurs_in_append_l (x s t : string) :
  Str.occurs_in x s -> Str.occurs_in x (s +:+ t).
Proof.
  intros [pre [post ->]]. exists pre, (post +:+ t). now rewrite !str_append_assoc.
Qed.

(** Every part occurs in the joined string. *)
Lemma occurs_in_join (sep x : string) (parts : list string) :
  In x parts -> Str.occurs_in x (Str.join sep parts).
Proof.
  induction parts as [|p parts IH]; [intros []|].
  intros [-> | Hin].
  - destruct parts as [|p' parts]; cbn [Str.join]; [apply occurs_in_refl|].
    apply occurs_in_append_l, occurs_in_refl.
  - destruct parts as [|p' parts]; [destruct Hin|]. cbn [Str.join].
    apply occurs_in_append_r, occurs_in_append_r. apply IH. exact Hin.
Qed.

(** X8.  The prompt [generate_summary] sends holds the date in its
    [YYYY/MM/DD] form and every item of the list it was given, whole: no
    item is left out or cut. *)
Theorem prompt_holds_date_and_items news_list target_date :
  Str.occurs_in (strftime_Ymd target_date) (prompt_of news_list target_date) /\
  forall item, In item news_list -> Str.occurs_in item (prompt_of news_list target_date).
Proof.
  unfold prompt_of, build_prompt. split.
  - apply occurs_in_append_r, occurs_in_append_l, occurs_in_refl.
  - intros item Hin. repeat apply occurs_in_append_r. now apply occurs_in_join.
Qed.

(** ** Publisher: what it asks of the messaging provider *)

(** X9.  Whatever the messaging provider does, [send_line_push] returns, and
    its dealings with the provider are these: if entering the client raises,
    none; otherwise the client is entered, one push is made, addressed to
    [LINE_USER_ID] under the configured access token and carrying one text
    message that is the given text unchanged, and the client is released,
    also when the push raises.  The success line is logged exactly when
    neither step raised. *)
Theorem send_line_push_interaction {R} sdk token user message tr :
  let cfg := {| access_token := token |} in
  let req := {| to := user; messages := [ {| tm_text := message |} ] |} in
  exists evs,
    send_line_push (R:=R) sdk token user message tr = (Normal tt, tr ++ evs) /\
    client_view evs =
    match ApiClient_raises sdk cfg with
    | Some _ => []
    | None => [Enter LINE_ApiClient; PushMessage cfg req; Exit LINE_ApiClient]
    end /\
    (In (Log INFO sent_msg) evs <->
     ApiClient_raises sdk cfg = None /\ push_message_raises sdk cfg req = None).
Proof.
  intros cfg req. rewrite send_line_push_run. cbv zeta.
  fold cfg. change (push_request user message) with req.
  eexists. split; [reflexivity|].
  destruct (ApiClient_raises sdk cfg) as [e|].
  - split; [reflexivity|]. split; [|intros [H _]; discriminate H].
    cbn [In]. intros [H | [H | [H | []]]]; discriminate H.
  - destruct (push_message_raises sdk cfg req) as [e|].
    + split; [reflexivity|]. split; [|intros [_ H]; discriminate H].
      cbn [In]. intros [H | [H | [H | [H | [H | [H | []]]]]]]; discriminate H.
    + split; [reflexivity|]. split; [now split|].
      intros _. cbn [In]. do 4 right. now left.
Qed.

(** ** Orchestrator: what reaches the reader *)

Lemma prints_app evs1 evs2 : prints (evs1 ++ evs2) = prints evs1 ++ prints evs2.
Proof.
  induction evs1 as [|ev evs1 IH]; [reflexivity|].
  destruct ev; cbn [app prints]; rewrite IH; reflexivity.
Qed.

Lemma pushes_app evs1 evs2 : pushes (evs1 ++ evs2) = pushes evs1 ++ pushes evs2.
Proof.
  induction evs1 as [|ev evs1 IH]; [reflexivity|].
  destruct ev; cbn [app pushes]; rewrite IH; reflexivity.
Qed.

(** Events of the search and of the summarizer print nothing and push
    nothing. *)
Lemma silent_events (P : event -> Prop) evs :
  (forall ev, P ev -> search_event ev \/ summary_event ev) ->
  Forall P evs -> prints evs = [] /\ pushes evs = [].
Proof.
  intros HP Hevs. induction Hevs as [|ev evs Hev _ [IH1 IH2]]; [now split|].
  destruct (HP ev Hev) as [H | H]; destruct ev; cbn in H; try contradiction;
    cbn [prints pushes]; now split.
Qed.

(** X10.  When the search kept some items and the summarizer returns a
    non-empty text, [main] returns, and over the whole run exactly three
    lines are printed, the text between its two frame lines, and the text
    is pushed unchanged to [LINE_USER_ID], once, unless entering the
    messaging client raises, in which case nothing is pushed. *)
Theorem main_delivers_digest DDGS_new client sdk token user today
    news tr1 answer tr2 :
  search_news (R:=unit) DDGS_new today max_results_per_keyword_default main_prologue =
  (Normal news, tr1) ->
  news <> [] ->
  generate_summary (R:=unit) client news today tr1 = (Normal (Some answer), tr2) ->
  answer <> "" ->
  exists tr,
    main (R:=unit) DDGS_new client sdk token user today [] = (Normal tt, tr) /\
    prints tr = [bar_top; answer; bar_bottom] /\
    pushes tr =
    match ApiClient_raises sdk {| access_token := token |} with
    | Some _ => []
    | None => [({| access_token := token |}, push_request user answer)]
    end.
Proof.
  intros Hsearch Hne Hsum Hanswer.
  destruct (main_stages (R:=unit) DDGS_new client sdk token user today [])
    as [news' [tr1' [Hsearch' [Hext1 Hmain]]]].
  cbn [app] in Hsearch', Hext1. fold main_prologue in Hsearch', Hext1.
  rewrite Hsearch in Hsearch'. injection Hsearch' as <- <-.
  destruct news as [|item news]; [congruence|].
  destruct Hmain as [summary [tr2' [Hsum' [Hext2 Hmain]]]].
  rewrite Hsum in Hsum'. injection Hsum' as <- <-.
  destruct answer as [|c answer]; [congruence|].
  cbn [opt_truthy Str.truthy] in Hmain.
  change (default "" (Some (String c answer))) with (String c answer) in Hmain.
  rewrite send_line_push_run in Hmain. cbv zeta in Hmain.
  eexists. split; [exact Hmain|].
  destruct Hext1 as [evs1 [-> Hevs1]]. destruct Hext2 as [evs2 [-> Hevs2]].
  destruct (silent_events search_event evs1 (fun ev H => or_introl H) Hevs1) as [Hp1 Hq1].
  destruct (silent_events summary_event evs2 (fun ev H => or_intror H) Hevs2) as [Hp2 Hq2].
  rewrite !prints_app, !pushes_app, Hp1, Hp2, Hq1, Hq2.
  destruct (ApiClient_raises sdk {| access_token := token |}) as [e|];
    [split; reflexivity|].
  destruct (push_message_raises sdk _ _); split; reflexivity.
Qed.

Lemma main_delivers_digest_witness :
  exists news tr1 tr2,
    search_news (R:=unit) (inr Sample.ddgs_ok) Sample.target_date
      max_results_per_keyword_default main_prologue = (Normal news, tr1) /\
    news <> [] /\
    generate_summary (R:=unit) Sample.client_fallback news Sample.target_date tr1 =
    (Normal (Some "Report body"), tr2) /\
    "Report body" <> "" /\
    exists tr,
      main (R:=unit) (inr Sample.ddgs_ok) Sample.client_fallback Sample.sdk_down
        (Some "token") (Some "user") Sample.target_date [] = (Normal tt, tr) /\
      prints tr = [bar_top; "Report body"; bar_bottom] /\
      pushes tr =
      match ApiClient_raises Sample.sdk_down {| access_token := Some "token" |} with
      | Some _ => []
      | None => [({| access_token := Some "token" |},
                  push_request (Some "user") "Report body")]
      end.
Proof.
  eexists _, _, _.
  split; [vm_compute; reflexivity|].
  split; [discriminate|].
  split; [vm_compute; reflexivity|].
  split; [discriminate|].
  eapply (main_delivers_digest (inr Sample.ddgs_ok) Sample.client_fallback
            Sample.sdk_down (Some "token") (Some "user") Sample.target_date).
  - vm_compute. reflexivity.
  - discriminate.
  - vm_compute. reflexivity.
  - discriminate.
Defined.

(** ** Start-up: the other outcomes *)

(** [main] returns normally from any trace, whatever the providers do. *)
Lemma main_returns {R} DDGS_new client sdk token user today tr :
  exists tr', main (R:=R) DDGS_new client sdk token user today tr = (Normal tt, tr').
Proof.
  destruct (main_stages (R:=R) DDGS_new client sdk token user today tr)
    as [news [tr1 [_ [_ Hmain]]]].
  destruct news as [|item news]; [eexists; exact Hmain|].
  destruct Hmain as [summary [tr2 [_ [_ Hmain]]]].
  rewrite Hmain. destruct (opt_truthy summary); [|eexists; reflexivity].
  rewrite send_line_push_run. eexists. reflexivity.
Qed.

(** The start-up test passes when the three secrets are present and
    non-empty. *)
Lemma secrets_pass (env : gmap string string) key token user :
  env !! "GEMINI_API_KEY" = Some key -> key <> "" ->
  env !! "LINE_CHANNEL_ACCESS_TOKEN" = Some token -> token <> "" ->
  env !! "LINE_USER_ID" = Some user -> user <> "" ->
  all opt_truthy
    [env !! "GEMINI_API_KEY"; env !! "LINE_CHANNEL_ACCESS_TOKEN"; env !! "LINE_USER_ID"] = true.
Proof.
  intros -> Hk -> Ht -> Hu. unfold all. cbn [forallb opt_truthy].
  apply truthy_nonempty in Hk, Ht, Hu. now rewrite Hk, Ht, Hu.
Qed.

(** X11.  A required secret that is set, but to the empty string, counts as
    missing: the script exits with status 1 having only logged the error. *)
Theorem empty_secret_exits DDGS_new genai_Client sdk today
    (dotenv environ : gmap string string) key :
  In key required_secrets ->
  load_dotenv dotenv environ !! key = Some "" ->
  run_script DDGS_new genai_Client sdk today dotenv environ =
  (1, [Log ERROR missing_msg]).
Proof.
  intros Hkey Hempty.
  unfold run_script, module_body. rewrite bind_run.
  assert (all opt_truthy
            [load_dotenv dotenv environ !! "GEMINI_API_KEY";
             load_dotenv dotenv environ !! "LINE_CHANNEL_ACCESS_TOKEN";
             load_dotenv dotenv environ !! "LINE_USER_ID"] = false) as Hall.
  { unfold required_secrets in Hkey. cbn [In] in Hkey. unfold all. cbn [forallb].
    destruct Hkey as [<- | [<- | [<- | []]]]; rewrite Hempty; cbn [opt_truthy Str.truthy];
      rewrite ?andb_false_r; reflexivity. }
  cbv zeta. rewrite Hall. reflexivity.
Qed.

Lemma empty_secret_exits_witness :
  In "LINE_USER_ID" required_secrets /\
  load_dotenv ∅ Sample.environ_empty_user !! "LINE_USER_ID" = Some "" /\
  run_script (inr Sample.ddgs_ok) (fun _ => inr Sample.client_fallback) Sample.sdk_down
    Sample.target_date ∅ Sample.environ_empty_user =
  (1, [Log ERROR missing_msg]).
Proof.
  assert (In "LINE_USER_ID" required_secrets) as Hkey by (vm_compute; tauto).
  assert (load_dotenv ∅ Sample.environ_empty_user !! "LINE_USER_ID" = Some "") as Hempty
    by (vm_compute; reflexivity).
  split; [exact Hkey|]. split; [exact Hempty|].
  exact (empty_secret_exits (inr Sample.ddgs_ok) (fun _ => inr Sample.client_fallback)
           Sample.sdk_down Sample.target_date ∅ Sample.environ_empty_user "LINE_USER_ID"
           Hkey Hempty).
Defined.

(** X12.  With the three secrets present and non-empty and the generation
    client constructed, the script constructs the client from
    [GEMINI_API_KEY], runs [main] with that client and the two other
    secrets, and exits with status 0, whatever the providers do then: no
    news, every model failing and a failed delivery all end the same way. *)
Theorem startup_runs_main DDGS_new genai_Client sdk today
    (dotenv environ : gmap string string) key token user client :
  load_dotenv dotenv environ !! "GEMINI_API_KEY" = Some key -> key <> "" ->
  load_dotenv dotenv environ !! "LINE_CHANNEL_ACCESS_TOKEN" = Some token -> token <> "" ->
  load_dotenv dotenv environ !! "LINE_USER_ID" = Some user -> user <> "" ->
  genai_Client (Some key) = inr client ->
  exists tr,
    main (R:=unit) DDGS_new client sdk (Some token) (Some user) today
      [GenaiClient (Some key)] = (Normal tt, tr) /\
    run_script DDGS_new genai_Client sdk today dotenv environ = (0, tr).
Proof.
  intros Hkey Hk Htoken Ht Huser Hu Hclient.
  destruct (main_returns (R:=unit) DDGS_new client sdk (Some token) (Some user) today
              [GenaiClient (Some key)]) as [tr Hmain].
  exists tr. split; [exact Hmain|].
  unfold run_script, module_body. cbv zeta. rewrite bind_run.
  rewrite (secrets_pass _ key token user Hkey Hk Htoken Ht Huser Hu).
  cbn [negb]. unfold ret at 1. cbv beta iota.
  rewrite Hkey, Htoken, Huser.
  unfold emit. rewrite bind_run. cbv beta iota. rewrite bind_run, Hclient.
  unfold ret at 1. cbv beta iota. cbn [app]. rewrite Hmain. reflexivity.
Qed.

Lemma startup_runs_main_witness :
  load_dotenv ∅ Sample.environ_full !! "GEMINI_API_KEY" = Some "key" /\ "key" <> "" /\
  load_dotenv ∅ Sample.environ_full !! "LINE_CHANNEL_ACCESS_TOKEN" = Some "token" /\
  "token" <> "" /\
  load_dotenv ∅ Sample.environ_full !! "LINE_USER_ID" = Some "user" /\ "user" <> "" /\
  exists tr,
    main (R:=unit) (inr Sample.ddgs_ok) Sample.client_fallback Sample.sdk_down
      (Some "token") (Some "user") Sample.target_date [GenaiClient (Some "key")] =
    (Normal tt, tr) /\
    run_script (inr Sample.ddgs_ok) (fun _ => inr Sample.client_fallback) Sample.sdk_down
      Sample.target_date ∅ Sample.environ_full = (0, tr).
Proof.
  assert (load_dotenv ∅ Sample.environ_full !! "GEMINI_API_KEY" = Some "key") as Hkey
    by (vm_compute; reflexivity).
  assert (load_dotenv ∅ Sample.environ_full !! "LINE_CHANNEL_ACCESS_TOKEN" = Some "token")
    as Htoken by (vm_compute; reflexivity).
  assert (load_dotenv ∅ Sample.environ_full !! "LINE_USER_ID" = Some "user") as Huser
    by (vm_compute; reflexivity).
  assert ("key" <> "") as Hk by discriminate.
  assert ("token" <> "") as Ht by discriminate.
  assert ("user" <> "") as Hu by discriminate.
  split; [exact Hkey|]. split; [exact Hk|]. split; [exact Htoken|]. split; [exact Ht|].
  split; [exact Huser|]. split; [exact Hu|].
  exact (startup_runs_main (inr Sample.ddgs_ok) (fun _ => inr Sample.client_fallback)
           Sample.sdk_down Sample.target_date ∅ Sample.environ_full
           "key" "token" "user" Sample.client_fallback
           Hkey Hk Htoken Ht Huser Hu eq_refl).
Defined.

(** X13.  With the three secrets present and non-empty, if constructing the
    generation client raises, nothing catches it: the script ends with
    status 1 right after the attempt, and [main] is never called. *)
Theorem client_construction_failure DDGS_new genai_Client sdk today
    (dotenv environ : gmap string string) key token user e :
  load_dotenv dotenv environ !! "GEMINI_API_KEY" = Some key -> key <> "" ->
  load_dotenv dotenv environ !! "LINE_CHANNEL_ACCESS_TOKEN" = Some token -> token <> "" ->
  load_dotenv dotenv environ !! "LINE_USER_ID" = Some user -> user <> "" ->
  genai_Client (Some key) = inl e ->
  run_script DDGS_new genai_Client sdk today dotenv environ =
  (1, [GenaiClient (Some key)]).
Proof.
  intros Hkey Hk Htoken Ht Huser Hu Hclient.
  unfold run_script, module_body. cbv zeta. rewrite bind_run.
  rewrite (secrets_pass _ key token user Hkey Hk Htoken Ht Huser Hu).
  cbn [negb]. unfold ret at 1. cbv beta iota.
  rewrite Hkey.
  unfold emit. rewrite bind_run. cbv beta iota. rewrite bind_run, Hclient.
  reflexivity.
Qed.

Lemma client_construction_failure_witness :
  load_dotenv ∅ Sample.environ_full !! "GEMINI_API_KEY" = Some "key" /\ "key" <> "" /\
  load_dotenv ∅ Sample.environ_full !! "LINE_CHANNEL_ACCESS_TOKEN" = Some "token" /\
  "token" <> "" /\
  load_dotenv ∅ Sample.environ_full !! "LINE_USER_ID" = Some "user" /\ "user" <> "" /\
  run_script (inr Sample.ddgs_ok) (fun _ => inl "invalid key") Sample.sdk_down
    Sample.target_date ∅ Sample.environ_full = (1, [GenaiClient (Some "key")]).
Proof.
  assert (load_dotenv ∅ Sample.environ_full !! "GEMINI_API_KEY" = Some "key") as Hkey
    by (vm_compute; reflexivity).
  assert (load_dotenv ∅ Sample.environ_full !! "LINE_CHANNEL_ACCESS_TOKEN" = Some "token")
    as Htoken by (vm_compute; reflexivity).
  assert (load_dotenv ∅ Sample.environ_full !! "LINE_USER_ID" = Some "user") as Huser
    by (vm_compute; reflexivity).
  assert ("key" <> "") as Hk by discriminate.
  assert ("token" <> "") as Ht by discriminate.
  assert ("user" <> "") as Hu by discriminate.
  split; [exact Hkey|]. split; [exact Hk|]. split; [exact Htoken|]. split; [exact Ht|].
  split; [exact Huser|]. split; [exact Hu|].
  exact (client_construction_failure (inr Sample.ddgs_ok) (fun _ => inl "invalid key")
           Sample.sdk_down Sample.target_date ∅ Sample.environ_full
           "key" "token" "user" "invalid key"
           Hkey Hk Htoken Ht Huser Hu eq_refl).
Defined.

(** ** Summarizer: exhaustion *)

(** X14.  When the list of items is not empty and the calls for both
    candidates raise, [generate_summary] returns [None], and what it did is
    exactly this: the opening line, then for each candidate in order the
    attempt, the call, a warning with the exception's text and the
    switching line, and last the error line.  No call is repeated. *)
Theorem generate_summary_exhausted {R} client news_list target_date tr e1 e2 :
  news_list <> [] ->
  client "gemini-1.5-pro-002" (prompt_of news_list target_date) generation_config = inl e1 ->
  client "gemini-flash-latest" (prompt_of news_list target_date) generation_config = inl e2 ->
  generate_summary (R:=R) client news_list target_date tr =
  (Normal None,
   tr ++ [Call "generate_summary"; Log INFO thinking_msg]
      ++ failure_events (prompt_of news_list target_date) "gemini-1.5-pro-002" e1
      ++ failure_events (prompt_of news_list target_date) "gemini-flash-latest" e2
      ++ [Log ERROR all_failed_msg]).
Proof.
  intros Hne H1 H2. rewrite generate_summary_run.
  destruct news_list as [|item news_list]; [congruence|].
  unfold candidate_models.
  rewrite for_each_cons, try_model_run, H1.
  rewrite for_each_cons, try_model_run, H2.
  cbn [for_each]. unfold ret. rewrite <- !app_assoc. reflexivity.
Qed.

Lemma generate_summary_exhausted_witness :
  [item_of Sample.geopolitics Sample.fusion] <> [] /\
  (fun _ _ _ => inl "quota") "gemini-1.5-pro-002"
    (prompt_of [item_of Sample.geopolitics Sample.fusion] Sample.target_date)
    generation_config = (inl "quota" : exn + GenerateContentResponse) /\
  generate_summary (R:=unit) (fun _ _ _ => inl "quota")
    [item_of Sample.geopolitics Sample.fusion] Sample.target_date [] =
  (Normal None,
   [] ++ [Call "generate_summary"; Log INFO thinking_msg]
      ++ failure_events (prompt_of [item_of Sample.geopolitics Sample.fusion]
                           Sample.target_date) "gemini-1.5-pro-002" "quota"
      ++ failure_events (prompt_of [item_of Sample.geopolitics Sample.fusion]
                           Sample.target_date) "gemini-flash-latest" "quota"
      ++ [Log ERROR all_failed_msg]).
Proof.
  assert ([item_of Sample.geopolitics Sample.fusion] <> []) as Hne by discriminate.
  split; [exact Hne|]. split; [reflexivity|].
  exact (generate_summary_exhausted (R:=unit) (fun _ _ _ => inl "quota")
           [item_of Sample.geopolitics Sample.fusion] Sample.target_date [] "quota" "quota"
           Hne eq_refl eq_refl).
Defined.

(** ** Searcher: an exception met while pulling *)

Section PullMeets.

Context {R : Type}.
Variable cap : Z.

(** A raise the loop meets ends the loop in that exception. *)
Lemma for_gen_pull_meets query count gen e :
  pull_meets cap count gen e ->
  forall results tr,
    for_gen (R:=R) gen (results, count) (search_hit cap query) tr = (Raised e, tr).
Proof.
  induction 1 as [count e | count r rest e Hroom Hrest IH]; intros results tr.
  - reflexivity.
  - rewrite for_gen_yield_b. replace (count >=? cap) with false by lia.
    destruct (acceptable_b r); apply IH.
Qed.

(** A loop that comes to its end ends normally. *)
Lemma for_gen_pull_completes query count gen :
  pull_completes cap count gen ->
  forall results tr,
    exists s, for_gen (R:=R) gen (results, count) (search_hit cap query) tr = (Normal s, tr).
Proof.
  induction 1 as [count | count r rest Hfull | count r rest Hroom Hrest IH];
    intros results tr.
  - now eexists.
  - rewrite for_gen_yield_b. replace (count >=? cap) with true by lia. now eexists.
  - rewrite for_gen_yield_b. replace (count >=? cap) with false by lia.
    destruct (acceptable_b r); apply IH.
Qed.

(** Every sequence does one or the other. *)
Lemma pull_completes_or_meets gen : forall count,
  pull_completes cap count gen \/ exists e, pull_meets cap count gen e.
Proof.
  induction gen as [|r rest IH|e]; intros count.
  - left. constructor.
  - destruct (Z_lt_le_dec count cap) as [Hroom | Hfull].
    + destruct (IH (if acceptable_b r then count + 1 else count)) as [Hc | [e He]].
      * left. now apply pull_completes_yield.
      * right. exists e. now apply pull_meets_yield.
    + left. now apply pull_completes_break.
  - right. exists e. constructor.
Qed.

(** The queries whose loops come to their end are passed one after the
    other. *)
Lemma for_each_pull_completes ddgs rest : forall pre results tr,
  Forall (fun q => pull_completes cap 0 (news ddgs q "wt-wt" "Off" "d")) pre ->
  exists results',
    for_each (R:=R) (pre ++ rest) results (search_query ddgs cap) tr =
    for_each (R:=R) rest results' (search_query ddgs cap)
      (tr ++ concat (map query_events pre)).
Proof.
  induction pre as [|query pre IH]; intros results tr Hpre.
  - exists results. cbn [app map concat]. now rewrite app_nil_r.
  - apply Forall_cons_1 in Hpre as [Hquery Hpre].
    cbn [app]. rewrite for_each_cons.
    unfold search_query at 1. unfold logger_info, emit, bind.
    destruct (for_gen_pull_completes query 0 _ Hquery results
                ((tr ++ [Log INFO ("   正在搜尋分類: " +:+ query +:+ " ...")])
                   ++ [DdgsNews query "wt-wt" "Off" "d"])) as [s Hrun].
    rewrite Hrun. unfold next_, ret.
    destruct (IH (fst s)
                ((tr ++ [Log INFO ("   正在搜尋分類: " +:+ query +:+ " ...")])
                   ++ [DdgsNews query "wt-wt" "Off" "d"]) Hpre) as [results' Hrest].
    exists results'. rewrite Hrest. cbn [map concat]. unfold query_events at 2.
    now rewrite <- !app_assoc.
Qed.

End PullMeets.

(** Every provider either raises during the run or lets the loops of all
    three queries come to their end. *)
Lemma search_meets_or_completes DDGS_new cap :
  (exists e, search_meets DDGS_new cap e) \/
  (exists ddgs,
     DDGS_new = inr ddgs /\
     Forall (fun q => pull_completes cap 0 (news ddgs q "wt-wt" "Off" "d")) keywords).
Proof.
  destruct DDGS_new as [e | ddgs]; [left; exists e; now left|].
  assert (forall queries,
            Forall (fun q => pull_completes cap 0 (news ddgs q "wt-wt" "Off" "d")) queries \/
            exists pre query post e,
              queries = pre ++ query :: post /\
              Forall (fun q => pull_completes cap 0 (news ddgs q "wt-wt" "Off" "d")) pre /\
              pull_meets cap 0 (news ddgs query "wt-wt" "Off" "d") e) as Hlist.
  { induction queries as [|query queries IH]; [left; constructor|].
    destruct (pull_completes_or_meets cap (news ddgs query "wt-wt" "Off" "d") 0)
      as [Hc | [e He]].
    - destruct IH as [Hall | [pre [q [post [e [-> [Hpre He]]]]]]].
      + left. now constructor.
      + right. exists (query :: pre), q, post, e. repeat split; [now constructor | exact He].
    - right. exists [], query, queries, e. repeat split; [constructor | exact He]. }
  destruct (Hlist keywords) as [Hall | [pre [query [post [e [Hsplit [Hpre He]]]]]]].
  - right. exists ddgs. split; [reflexivity | exact Hall].
  - left. exists e. right. exists ddgs, pre, query, post.
    split; [reflexivity|]. split; [exact Hsplit|]. split; assumption.
Qed.

(** C3.  If the search provider raises during a run of [search_news], be it
    on constructing the session or on a pull of the loop of any query, after
    any number of hits were accepted for that query and the queries before
    it, then [search_news] returns the empty list, and the last thing it
    does is log the error. *)
Theorem search_news_exception_returns_empty {R} DDGS_new target_date cap tr e :
  search_meets DDGS_new cap e ->
  exists evs,
    search_news (R:=R) DDGS_new target_date cap tr =
    (Normal [], tr ++ evs ++ [Log ERROR (search_error_msg e)]).
Proof.
  intros [-> | [ddgs [pre [query [post [-> [Hsplit [Hpre Hmeets]]]]]]]];
    rewrite search_news_run; unfold search_news_try, with_.
  - unfold raise. exists [Call "search_news"; Log INFO (search_start_msg target_date)].
    rewrite <- !app_assoc. reflexivity.
  - rewrite Hsplit.
    destruct (for_each_pull_completes (R:=list string) cap ddgs (query :: post) pre []
                ((((tr ++ [Call "search_news"]) ++ [Log INFO (search_start_msg target_date)])
                    ++ [Enter DDGS_session])) Hpre) as [results' Hrun].
    rewrite Hrun, for_each_cons.
    unfold search_query at 1. unfold logger_info, emit, bind.
    rewrite (for_gen_pull_meets (R:=list string) cap query 0 _ e Hmeets).
    exists ([Call "search_news"; Log INFO (search_start_msg target_date); Enter DDGS_session]
              ++ concat (map query_events pre) ++ query_events query
              ++ [Exit DDGS_session]).
    unfold query_events at 2. rewrite <- !app_assoc. reflexivity.
Qed.

Lemma search_news_exception_returns_empty_witness :
  search_meets (inr Sample.ddgs_failing) 3 "timeout" /\
  exists evs,
    search_news (R:=unit) (inr Sample.ddgs_failing) Sample.target_date 3 [] =
    (Normal [], [] ++ evs ++ [Log ERROR (search_error_msg "timeout")]).
Proof.
  assert (search_meets (inr Sample.ddgs_failing) 3 "timeout") as Hmeets.
  { right. exists Sample.ddgs_failing, [Sample.geopolitics],
      "Global Economic Impact -stock -crypto",
      ["Scientific Research Breakthroughs AI Space -movie -fiction"].
    split; [reflexivity|]. split; [reflexivity|]. split.
    - constructor; [|constructor].
      apply pull_completes_yield; [vm_compute; reflexivity|]. apply pull_completes_stop.
    - apply pull_meets_raise. }
  split; [exact Hmeets|].
  exact (search_news_exception_returns_empty (R:=unit) (inr Sample.ddgs_failing)
           Sample.target_date 3 [] "timeout" Hmeets).
Defined.

(** In that run a hit had been accepted for the first query before the
    second query raised. *)
Example search_news_sample_dropped :
  for_gen (R:=unit) (news Sample.ddgs_failing Sample.geopolitics "wt-wt" "Off" "d")
    ([], 0) (search_hit 3 Sample.geopolitics) [] =
  (Normal ([item_of Sample.geopolitics Sample.fusion], 1), []).
Proof. vm_compute. reflexivity. Qed.
